(** * The transform stage of the ETL pipeline (etl/transform.py)

    A shallow embedding of the functions of [transform.py] that turn the
    processed tables into RDF, together with the part of
    [create_populate_ontology.py] that unions the per-source graphs.

    Conventions of the embedding.
    - A Python [str] is a [string]; each character stands for the code
      point of the same number, U+0000 to U+00FF.  The character classes
      and case mappings below are Python's on that range.
    - A call that can raise returns an [outcome]; state that Python mutates
      in place (the graph, the summary dict, the files on disk) is passed
      on explicitly, so that it survives an exception as it does in Python.
    - An rdflib [Graph] is a finite set of triples. *)

From Stdlib Require Import ZArith Ascii String List Lia Permutation.
From stdpp Require Import base decidable countable strings pretty gmap sets list option sorting.

Local Open Scope string_scope.
Local Open Scope Z_scope.

(** ** Exceptions and outcomes *)

Inductive exn : Type :=
  | ValueError
  | KeyError
  | IndexError
  | AttributeError
  | OtherError.

Inductive outcome (A : Type) : Type :=
  | Ret (a : A)
  | Raise (e : exn).
Arguments Ret {A} a.
Arguments Raise {A} e.

#[global] Instance outcome_ret : MRet outcome := λ A a, Ret a.

#[global] Instance outcome_bind : MBind outcome := λ A B k m,
  match m with
  | Ret a => k a
  | Raise e => Raise e
  end.

#[global] Instance exn_eq_dec : EqDecision exn.
Proof. solve_decision. Defined.

(** ** Characters and the [str] methods the module uses *)

Module Py.

Definition code (c : ascii) : N := N_of_ascii c.

Definition between (lo hi : N) (c : ascii) : bool :=
  ((lo <=? code c) && (code c <=? hi))%N.

(** [str.isdecimal] on one character. *)
Definition isdecimal (c : ascii) : bool := between 48 57 c.

(** [str.isdigit] on one character: the decimal digits and the
    superscripts U+00B2, U+00B3, U+00B9. *)
Definition isdigit (c : ascii) : bool :=
  isdecimal c || (code c =? 178)%N || (code c =? 179)%N || (code c =? 185)%N.

(** [str.isnumeric]: the digits and the fractions U+00BC to U+00BE. *)
Definition isnumeric (c : ascii) : bool := isdigit c || between 188 190 c.

Definition isupper_ascii (c : ascii) : bool := between 65 90 c.
Definition islower_ascii (c : ascii) : bool := between 97 122 c.

(** [str.isalpha]: the ASCII letters, U+00AA, U+00B5, U+00BA and the
    letters of U+00C0 to U+00FF (all but the signs U+00D7 and U+00F7). *)
Definition isalpha (c : ascii) : bool :=
  isupper_ascii c || islower_ascii c
  || (code c =? 170)%N || (code c =? 181)%N || (code c =? 186)%N
  || between 192 214 c || between 216 246 c || between 248 255 c.

Definition isalnum (c : ascii) : bool :=
  isalpha c || isdecimal c || isdigit c || isnumeric c.

(** The class [\w] of [re] for a [str] pattern. *)
Definition is_word (c : ascii) : bool := isalnum c || (code c =? 95)%N.

(** [str.isspace] on one character. *)
Definition isspace (c : ascii) : bool :=
  between 9 13 c || between 28 32 c || (code c =? 133)%N || (code c =? 160)%N.

(** [str.lower] on one character: it stays within the range. *)
Definition lower_char (c : ascii) : ascii :=
  if isupper_ascii c || between 192 214 c || between 216 222 c
  then ascii_of_N (code c + 32) else c.

Fixpoint lower (s : string) : string :=
  match s with
  | "" => ""
  | String c r => String (lower_char c) (lower r)
  end.

(** [str.upper].  U+00DF becomes "SS"; the upper-case forms of U+00B5 and
    U+00FF lie above U+00FF and these two characters are kept as they are
    (neither form occurs in a key of the quarter table, the one place the
    module calls [upper]). *)
Definition upper_char (c : ascii) : string :=
  if islower_ascii c || between 224 246 c || between 248 254 c
  then String (ascii_of_N (code c - 32)) ""
  else if (code c =? 223)%N then "SS"
  else String c "".

Fixpoint upper (s : string) : string :=
  match s with
  | "" => ""
  | String c r => upper_char c ++ upper r
  end.

(** [s.startswith(prefix)]. *)
Fixpoint startswith (s prefix : string) {struct prefix} : bool :=
  match prefix, s with
  | "", _ => true
  | String c p, String d r => Ascii.eqb c d && startswith r p
  | String _ _, "" => false
  end.

(** [s.endswith(suffix)]. *)
Fixpoint endswith (s suffix : string) : bool :=
  String.eqb s suffix ||
  match s with
  | "" => false
  | String _ r => endswith r suffix
  end.

(** [s[:-n]] for [n > 0]. *)
Definition drop_last (n : nat) (s : string) : string :=
  String.substring 0 (String.length s - n) s.

(** [needle in haystack]. *)
Fixpoint contains (needle haystack : string) : bool :=
  startswith haystack needle ||
  match haystack with
  | "" => false
  | String _ r => contains needle r
  end.

(** [s.replace(c, '')] for a one-character [c]. *)
Fixpoint remove_char (c : ascii) (s : string) : string :=
  match s with
  | "" => ""
  | String d r => if Ascii.eqb c d then remove_char c r else String d (remove_char c r)
  end.

(** [s.split(sep)] for a one-character separator: never empty. *)
Fixpoint split_on (sep : ascii) (s : string) : list string :=
  match s with
  | "" => [""]
  | String c r =>
      if Ascii.eqb c sep then "" :: split_on sep r
      else match split_on sep r with
           | [] => [String c ""]
           | w :: ws => String c w :: ws
           end
  end.

(** [s.split()]: the maximal runs of non-blank characters. *)
Fixpoint split_ws_go (cur : string) (s : string) : list string :=
  match s with
  | "" => if String.eqb cur "" then [] else [String.rev cur]
  | String c r =>
      if isspace c
      then (if String.eqb cur "" then split_ws_go "" r
            else String.rev cur :: split_ws_go "" r)
      else split_ws_go (String c cur) r
  end.

Definition split_ws (s : string) : list string := split_ws_go "" s.

Fixpoint lstrip (s : string) : string :=
  match s with
  | String c r => if isspace c then lstrip r else s
  | "" => ""
  end.

(** [s.strip()]. *)
Definition strip (s : string) : string :=
  String.rev (lstrip (String.rev (lstrip s))).

(** [s[:n]]. *)
Definition take (n : nat) (s : string) : string := String.substring 0 n s.

(** The blanks that [int] skips around the digits: the ASCII blanks
    U+0009 to U+000D and U+0020 and, above U+007F, the characters of
    [str.isspace] (U+0085 and U+00A0).  The separators U+001C to U+001F are
    blanks for [str.strip] but not for [int]. *)
Definition int_space (c : ascii) : bool :=
  between 9 13 c || (code c =? 32)%N || (code c =? 133)%N || (code c =? 160)%N.

Fixpoint int_lstrip (s : string) : string :=
  match s with
  | String c r => if int_space c then int_lstrip r else s
  | "" => ""
  end.

Definition int_strip (s : string) : string :=
  String.rev (int_lstrip (String.rev (int_lstrip s))).

(** The decimal digits after the sign, single underscores allowed between
    two digits. *)
Fixpoint int_digits (acc : Z) (after_digit : bool) (s : string) : option Z :=
  match s with
  | "" => if after_digit then Some acc else None
  | String c r =>
      if isdecimal c then int_digits (10 * acc + (Z.of_N (code c) - 48)) true r
      else if (code c =? 95)%N
           then (if after_digit then int_digits acc false r else None)
           else None
  end.

(** The number of digits of a text, leading zeros included. *)
Fixpoint count_digits (s : string) : nat :=
  match s with
  | "" => 0
  | String c r => if isdecimal c then S (count_digits r) else count_digits r
  end.

(** [sys.int_info.default_max_str_digits]. *)
Definition max_str_digits : Z := 4300.

(** The digits of [int(s)]: a text of more than [max_str_digits] digits
    is refused with [ValueError] (CPython 3.11). *)
Definition int_unsigned (t : string) : outcome Z :=
  if max_str_digits <? Z.of_nat (count_digits t) then Raise ValueError
  else
    match int_digits 0 false t with
    | Some z => Ret z
    | None => Raise ValueError
    end.

(** [int(s)] in base ten: blanks around, an optional sign, then the
    digits. *)
Definition int_of_str (s : string) : outcome Z :=
  match int_strip s with
  | String "+" r => int_unsigned r
  | String "-" r => z ← int_unsigned r; Ret (- z)
  | t => int_unsigned t
  end.

(** [str(n)] for an [int]. *)
Definition str_of_int (z : Z) : string := pretty z.

End Py.

(** ** RDF terms and graphs (rdflib) *)

(** The module builds URI references and typed literals only, no blank
    nodes.  [lexical] is the text handed to [Literal]. *)
Inductive term : Type :=
  | URIRef (uri : string)
  | Literal (lexical : string) (datatype : string).

#[global] Instance term_eq_dec : EqDecision term.
Proof. solve_decision. Defined.

#[global] Instance term_countable : Countable term.
Proof.
  refine (inj_countable'
    (λ t, match t with
          | URIRef u => inl u
          | Literal l d => inr (l, d)
          end)
    (λ x, match x with
          | inl u => URIRef u
          | inr (l, d) => Literal l d
          end) _).
  by intros [].
Defined.

Definition triple : Type := term * term * term.

(** A [Graph]: [add] inserts one triple, [+=] is union. *)
Abbreviation graph := (gset triple).

Definition add (t : triple) (g : graph) : graph := {[ t ]} ∪ g.

Definition RDF_type : term :=
  URIRef "http://www.w3.org/1999/02/22-rdf-syntax-ns#type".

Definition XSD (name : string) : string :=
  "http://www.w3.org/2001/XMLSchema#" ++ name.

(** ** Table cells, rows and chunks (pandas) *)

(** A cell of a processed table: missing, text, or an integer
    (floating-point cells are left out). *)
Inductive cell : Type :=
  | NaN
  | Str (s : string)
  | Num (z : Z).

#[global] Instance cell_eq_dec : EqDecision cell.
Proof. solve_decision. Defined.

#[global] Instance cell_countable : Countable cell.
Proof.
  refine (inj_countable'
    (λ c, match c with
          | NaN => inl ()
          | Str s => inr (inl s)
          | Num z => inr (inr z)
          end)
    (λ x, match x with
          | inl _ => NaN
          | inr (inl s) => Str s
          | inr (inr z) => Num z
          end) _).
  by intros [].
Defined.

(** [pd.isna] / [pd.notna]. *)
Definition isna (c : cell) : bool :=
  match c with NaN => true | _ => false end.

(** [str(value)]. *)
Definition str (c : cell) : string :=
  match c with
  | NaN => "nan"
  | Str s => s
  | Num z => Py.str_of_int z
  end.

(** A row is a labelled series; a chunk is a data frame, row by row. *)
Definition row : Type := list (string * cell).
Definition chunk : Type := list row.

Fixpoint get (label : string) (r : row) : option cell :=
  match r with
  | [] => None
  | (l, c) :: rest => if String.eqb l label then Some c else get label rest
  end.

(** ** The mapping registry (config/ontology_config.py) *)

(** [NAMESPACES[prefix]], for the five prefixes of the table. *)
Definition NAMESPACES (prefix : string) : string :=
  "http://example.org/" ++
  (if String.eqb prefix "prop" then "property"
   else if String.eqb prefix "loc" then "location"
   else if String.eqb prefix "time" then "time"
   else if String.eqb prefix "econ" then "economic"
   else if String.eqb prefix "house" then "housing"
   else prefix) ++ "#".

(** [NAMESPACES[p].name]. *)
Definition ns (prefix name : string) : string := NAMESPACES prefix ++ name.

Module DATE_FORMATS.
Definition YYYY := "%Y".
Definition YYYY_MM := "%Y-%m".
Definition YYYY_MM_DD := "%Y-%m-%d".
Definition DD_MMM_YY := "%d %b %y".
Definition ACADEMIC_YEAR := "ACADEMIC_YEAR".
Definition YYYY_MMM := "YYYY MMM".
Definition YYYY_Q := "YYYY Q".
End DATE_FORMATS.

(** The value of a mapping's ['date_format']: one format or a list. *)
Inductive date_formats : Type :=
  | OneFormat (f : string)
  | FormatList (fs : list string).

(** The rule of one field. *)
Record field_details : Type := {
  property : string;
  datatype : option string;
  mapping : option (gmap string string);
  valid_values : option (list string);
  object : option bool;
  related_class : option string;     (* details['class'] *)
}.

(** A [str.format] template with named fields. *)
Inductive piece : Type :=
  | Text (s : string)
  | Field (name : string).

Record source_mapping : Type := {
  class : string;
  uri_pattern : list piece;
  date_format : date_formats;
  fields : list (string * field_details);
}.

(** [pattern.format(key=value)]. *)
Fixpoint format (pattern : list piece) (key value : string) : outcome string :=
  match pattern with
  | [] => Ret ""
  | Text s :: rest => r ← format rest key value; Ret (s ++ r)
  | Field name :: rest =>
      if String.eqb name key
      then r ← format rest key value; Ret (value ++ r)
      else Raise KeyError
  end.

(** A field with a property and a datatype only. *)
Definition data_field (p dt : string) : field_details :=
  {| property := p; datatype := Some dt; mapping := None;
     valid_values := None; object := None; related_class := None |}.

(** A field with a value mapping and the list of its valid values. *)
Definition coded_field (p dt : string) (codes : list (string * string))
  : field_details :=
  {| property := p; datatype := Some dt;
     mapping := Some (list_to_map codes);
     valid_values := Some codes.*1; object := None; related_class := None |}.

Definition price_paid : source_mapping :=
  {| class := ns "prop" "Property";
     uri_pattern := [Text (NAMESPACES "prop" ++ "Property/"); Field "transaction_id"];
     date_format := OneFormat DATE_FORMATS.YYYY_MM_DD;
     fields := [
       ("transaction_id", data_field (ns "prop" "transactionId") (XSD "string"));
       ("price", data_field (ns "prop" "price") (XSD "integer"));
       ("date", data_field (ns "time" "date") (XSD "dateTime"));
       ("postcode", data_field (ns "prop" "postcode") (XSD "string"));
       ("property_type",
        coded_field (ns "prop" "propertyType") (XSD "string")
          [("d", "detached"); ("s", "semi-detached"); ("t", "terraced");
           ("f", "flats/maisonettes"); ("o", "other")]);
       ("old_new",
        coded_field (ns "prop" "oldNew") (XSD "string")
          [("y", "newly built"); ("n", "established residential building")]);
       ("freehold_leasehold",
        coded_field (ns "prop" "tenure") (XSD "string")
          [("f", "freehold"); ("l", "leasehold")]);
       ("transaction_category",
        coded_field (ns "prop" "transactionCategory") (XSD "string")
          [("a", "standard transaction"); ("b", "non-standard transaction")]);
       ("transaction_status",
        {| property := ns "prop" "transactionStatus";
           datatype := Some (XSD "string"); mapping := None;
           valid_values := Some ["a"; "c"]; object := None;
           related_class := None |});
       ("address_1", data_field (ns "prop" "address1") (XSD "string"));
       ("address_2", data_field (ns "prop" "address2") (XSD "string"));
       ("location_name",
        {| property := ns "prop" "hasLocation"; datatype := None;
           mapping := None; valid_values := None; object := Some true;
           related_class := Some (ns "loc" "Location") |})
     ] |}.

Definition additional_dwellings : source_mapping :=
  {| class := ns "house" "HousingMarketIndicator";
     uri_pattern := [Text (NAMESPACES "house" ++ "HousingMarketIndicator/");
                     Field "unique_id"];
     date_format := OneFormat DATE_FORMATS.YYYY;
     fields := [
       ("location_name", data_field (ns "prop" "hasLocation") (XSD "string"));
       ("date", data_field (ns "time" "date") (XSD "gYear"));
       ("additional_dwellings",
        data_field (ns "house" "additionalDwellings") (XSD "decimal"))
     ] |}.

Definition boe_rate : source_mapping :=
  {| class := ns "econ" "NationalEconomicIndicator";
     uri_pattern := [Text (NAMESPACES "econ" ++ "NationalEconomicIndicator/");
                     Field "unique_id"];
     date_format := OneFormat DATE_FORMATS.DD_MMM_YY;
     fields := [
       ("date", data_field (ns "time" "date") (XSD "date"));
       ("rate", data_field (ns "econ" "rate") (XSD "decimal"))
     ] |}.

Definition mortgage_rate : source_mapping :=
  {| class := ns "econ" "LocalEconomicIndicator";
     uri_pattern := [Text (NAMESPACES "econ" ++ "LocalEconomicIndicator/");
                     Field "unique_id"];
     date_format := OneFormat DATE_FORMATS.YYYY_MM;
     fields := [
       ("rate_type", data_field (ns "econ" "rateType") (XSD "string"));
       ("date", data_field (ns "time" "date") (XSD "gYearMonth"));
       ("rate", data_field (ns "econ" "rate") (XSD "decimal"))
     ] |}.

Definition school_count : source_mapping :=
  {| class := ns "house" "HousingMarketIndicator";
     uri_pattern := [Text (NAMESPACES "house" ++ "HousingMarketIndicator/");
                     Field "unique_id"];
     date_format := OneFormat DATE_FORMATS.ACADEMIC_YEAR;
     fields := [
       ("date", data_field (ns "time" "date") (XSD "gYear"));
       ("location_name", data_field (ns "prop" "hasLocation") (XSD "string"));
       ("school_count", data_field (ns "house" "schoolCount") (XSD "integer"))
     ] |}.

Definition unemployment : source_mapping :=
  {| class := ns "econ" "NationalEconomicIndicator";
     uri_pattern := [Text (NAMESPACES "econ" ++ "NationalEconomicIndicator/");
                     Field "unique_id"];
     date_format := FormatList [DATE_FORMATS.YYYY; DATE_FORMATS.YYYY_MMM;
                                DATE_FORMATS.YYYY_Q];
     fields := [
       ("date", data_field (ns "time" "date") (XSD "gYear"));
       ("unemployment_rate",
        data_field (ns "econ" "unemploymentRate") (XSD "decimal"))
     ] |}.

Definition MAPPINGS : gmap string source_mapping :=
  list_to_map [
    ("price_paid", price_paid);
    ("additional_dwellings", additional_dwellings);
    ("boe_rate", boe_rate);
    ("mortgage_rate", mortgage_rate);
    ("school_count", school_count);
    ("unemployment", unemployment)
  ].

(** ** The run summary *)

Inductive error : Type :=
  | Message (text : string)
  | Exception (e : exn).           (* str(e) *)

Record summary : Type := {
  total_rows : nat;
  mapped_rows : nat;
  skipped_dates : gset cell;
  invalid_locations : gset cell;
  errors : list error;
}.

Definition new_summary : summary :=
  {| total_rows := 0; mapped_rows := 0; skipped_dates := ∅;
     invalid_locations := ∅; errors := [] |}.

Definition add_error (e : error) (s : summary) : summary :=
  {| total_rows := total_rows s; mapped_rows := mapped_rows s;
     skipped_dates := skipped_dates s;
     invalid_locations := invalid_locations s;
     errors := (errors s ++ [e])%list |}.

Definition add_skipped_date (v : cell) (s : summary) : summary :=
  {| total_rows := total_rows s; mapped_rows := mapped_rows s;
     skipped_dates := {[ v ]} ∪ skipped_dates s;
     invalid_locations := invalid_locations s;
     errors := errors s |}.

Definition count_row (ok : bool) (s : summary) : summary :=
  {| total_rows := S (total_rows s);
     mapped_rows := if ok then S (mapped_rows s) else mapped_rows s;
     skipped_dates := skipped_dates s;
     invalid_locations := invalid_locations s;
     errors := errors s |}.

(** ** URI sanitisation and location names *)

Definition sanitize_char (c : ascii) : ascii :=
  if Py.is_word c || Ascii.eqb c "-" then c else "_"%char.

Fixpoint re_sub_non_word (value : string) : string :=
  match value with
  | "" => ""
  | String c r => String (sanitize_char c) (re_sub_non_word r)
  end.

Definition sanitize_uri (value : string) : outcome string :=
  let value := re_sub_non_word value in
  match value with
  | "" => Raise IndexError                       (* value[0] *)
  | String c _ => Ret (if Py.isdigit c then String "_" value else value)
  end.

(** [clean_location_name] on a string. *)
Definition clean_location_name (location_name : string) : string :=
  if Py.endswith location_name " ua" then Py.drop_last 3 location_name
  else location_name.

(** ** The functions that depend on the environment *)

(** [float], [datetime.strptime], [strftime], [dateutil.parser.parse] and
    [uuid.uuid4] are library code; [valid_locations] is read from a YAML
    file; [mappings] is [ontology_config.MAPPINGS].  [uuid4 source i] is the
    text of the identifier drawn for the [i]-th row of a source. *)
Record environment : Type := {
  pyfloat : Type;
  float_of_str : string → outcome pyfloat;
  int_of_float : pyfloat → outcome Z;
  datetime : Type;
  strptime : string → string → outcome datetime;
  strftime : datetime → string → outcome string;
  dateutil_parse : string → outcome datetime;
  valid_locations : list string;
  mappings : gmap string source_mapping;
  uuid4 : string → nat → string;
}.

Section Transform.

Context (env : environment).

Fixpoint first_match (location_name : string) (candidates : list string)
  : option string :=
  match candidates with
  | [] => None
  | valid_location :: rest =>
      if Py.contains (Py.lower valid_location) (Py.lower location_name)
      then Some valid_location
      else first_match location_name rest
  end.

Definition validate_location (location_name : string) : option string :=
  first_match location_name (valid_locations env).

(** [{'Q1': '01', 'Q2': '04', 'Q3': '07', 'Q4': '10'}[q]]. *)
Definition quarter_month (q : string) : outcome string :=
  if String.eqb q "Q1" then Ret "01"
  else if String.eqb q "Q2" then Ret "04"
  else if String.eqb q "Q3" then Ret "07"
  else if String.eqb q "Q4" then Ret "10"
  else Raise KeyError.

(** The body of the [try] of [parse_date] for one format; [Ret None] when
    no branch applies to the format. *)
Definition parse_with (date_str date_format : string)
  : outcome (option string) :=
  if String.eqb date_format DATE_FORMATS.YYYY then
    f ← float_of_str env date_str;
    z ← int_of_float env f;
    Ret (Some (Py.str_of_int z))
  else if String.eqb date_format DATE_FORMATS.ACADEMIC_YEAR then
    year ← Py.int_of_str (Py.take 4 date_str);
    Ret (Some (Py.str_of_int year))
  else if bool_decide (date_format ∈ [DATE_FORMATS.DD_MMM_YY;
                                       DATE_FORMATS.YYYY_MM_DD;
                                       DATE_FORMATS.YYYY_MM]) then
    parsed_date ← strptime env date_str date_format;
    r ← strftime env parsed_date
          (if Py.contains "d" date_format then "%Y-%m-%d" else "%Y-%m");
    Ret (Some r)
  else if String.eqb date_format DATE_FORMATS.YYYY_MMM then
    parsed_date ← dateutil_parse env date_str;
    r ← strftime env parsed_date "%Y-%m";
    Ret (Some r)
  else if String.eqb date_format DATE_FORMATS.YYYY_Q then
    match Py.split_ws date_str with
    | [year; q] =>
        month ← quarter_month (Py.upper q);
        Ret (Some (year ++ "-" ++ month))
    | _ => Raise ValueError                      (* unpacking *)
    end
  else Ret None.

(** The loop over the candidate formats: only [ValueError] is caught. *)
Fixpoint try_formats (date_str : string) (formats : list string)
  : outcome (option string) :=
  match formats with
  | [] => Ret None
  | date_format :: rest =>
      match parse_with date_str date_format with
      | Ret (Some r) => Ret (Some r)
      | Ret None => try_formats date_str rest
      | Raise ValueError => try_formats date_str rest
      | Raise e => Raise e
      end
  end.

Definition parse_date (date_str : cell) (formats : date_formats)
  : outcome (option string) :=
  if isna date_str then Ret None
  else
    try_formats (Py.strip (str date_str))
      (match formats with OneFormat f => [f] | FormatList fs => fs end).

(** [int(x.split('-')[0])]. *)
Definition year_of (parsed_date : string) : outcome Z :=
  Py.int_of_str (hd "" (Py.split_on "-" parsed_date)).

(** *** Dates as time entities *)

Definition time_entity (kind date_str : string) : term :=
  URIRef (NAMESPACES "time" ++ kind ++ "/" ++ date_str).

(** The body of the [try] of [map_date_to_ontology].  Every statement that
    can raise comes before the first [graph.add] of its branch, so the
    graph of a raising call is the one it was given. *)
Definition map_date_body (date_str : string) (g : graph)
    (common_earliest_year : Z) : outcome (option term * graph) :=
  year ← year_of date_str;
  if year <? common_earliest_year then Ret (None, g)
  else
    let n := String.length date_str in
    if (n =? 4)%nat then
      let date_uri := time_entity "Year" date_str in
      Ret (Some date_uri,
           add (date_uri, URIRef (ns "time" "year"), Literal date_str (XSD "gYear"))
             (add (date_uri, RDF_type, URIRef (ns "time" "Year")) g))
    else if (n =? 7)%nat then
      let date_uri := time_entity "YearMonth" date_str in
      Ret (Some date_uri,
           add (date_uri, URIRef (ns "time" "yearMonth"),
                Literal date_str (XSD "gYearMonth"))
             (add (date_uri, RDF_type, URIRef (ns "time" "YearMonth")) g))
    else if (n =? 10)%nat then
      let date_uri := time_entity "FullDate" date_str in
      Ret (Some date_uri,
           add (date_uri, URIRef (ns "time" "date"), Literal date_str (XSD "date"))
             (add (date_uri, RDF_type, URIRef (ns "time" "FullDate")) g))
    else if (n =? 9)%nat then
      match Py.split_on "-" date_str with
      | [start_year; end_year] =>
          let date_uri := time_entity "AcademicYear" date_str in
          Ret (Some date_uri,
               add (date_uri, URIRef (ns "time" "endYear"),
                    Literal end_year (XSD "gYear"))
                 (add (date_uri, URIRef (ns "time" "startYear"),
                       Literal start_year (XSD "gYear"))
                    (add (date_uri, RDF_type, URIRef (ns "time" "AcademicYear")) g)))
      | _ => Raise ValueError                    (* unpacking *)
      end
    else Ret (None, g).

Definition map_date_to_ontology (date_str : string) (g : graph)
    (common_earliest_year : Z) : option term * graph :=
  if String.eqb date_str "" then (None, g)
  else
    match map_date_body date_str g common_earliest_year with
    | Ret r => r
    | Raise _ => (None, g)
    end.

(** *** One row *)

(** [generate_unique_identifier]; [fresh] is what [str(uuid.uuid4())]
    returns for this call. *)
Definition generate_unique_identifier (fresh prefix : string) : string :=
  prefix ++ "_" ++ Py.remove_char "-" fresh.

(** The main entity URI of a row. *)
Definition entity_uri_of (r : row) (m : source_mapping) (fresh : string)
  : outcome term :=
  match get "transaction_id" r with
  | Some id =>
      let transaction_id := Py.remove_char "}" (Py.remove_char "{" (str id)) in
      u ← format (uri_pattern m) "transaction_id" transaction_id;
      Ret (URIRef u)
  | None =>
      let unique_id :=
        generate_unique_identifier fresh (List.last (Py.split_on "#" (class m)) "") in
      u ← format (uri_pattern m) "unique_id" unique_id;
      Ret (URIRef u)
  end.

(** How one pass through the body of the field loop ends. *)
Inductive signal : Type :=
  | Continue
  | Return (ok : bool)
  | Throw (e : exn).

Definition invalid_value_message (v : cell) (field : string) : error :=
  Message ("Invalid value '" ++ str v ++ "' for field '" ++ field ++ "'").

Definition no_mapping_message (v : cell) (field : string) : error :=
  Message ("No mapping found for value '" ++ str v ++ "' in field '" ++ field ++ "'").

(** [original_value in values] for a list of strings. *)
Definition cell_in (v : cell) (values : list string) : bool :=
  match v with
  | Str s => bool_decide (s ∈ values)
  | _ => false
  end.

(** [d[original_value]] when the key is there. *)
Definition cell_lookup (v : cell) (d : gmap string string) : option string :=
  match v with
  | Str s => d !! s
  | _ => None
  end.

(** The special handling of the date field, lines 376 to 392. *)
Definition date_step (m : source_mapping) (details : field_details)
    (entity_uri : term) (value : cell) (common_earliest_year : Z)
    (g : graph) (s : summary) : graph * summary * signal :=
  match parse_date value (date_format m) with
  | Raise e => (g, s, Throw e)
  | Ret None => (g, add_skipped_date value s, Return false)
  | Ret (Some parsed_date) =>
      if String.eqb parsed_date "" then (g, add_skipped_date value s, Return false)
      else
        match year_of parsed_date with
        | Raise e => (g, s, Throw e)
        | Ret year =>
            if common_earliest_year <=? year then
              match map_date_to_ontology parsed_date g common_earliest_year with
              | (Some date_uri, g') =>
                  (add (entity_uri, URIRef (property details), date_uri) g', s, Continue)
              | (None, g') => (g', add_skipped_date value s, Return false)
              end
            else (g, add_skipped_date value s, Return false)
        end
  end.

(** The body of the loop over [mapping['fields'].items()]. *)
Definition process_field (r : row) (m : source_mapping) (entity_uri : term)
    (common_earliest_year : Z) (field : string) (details : field_details)
    (g : graph) (s : summary) : graph * summary * signal :=
  match get field r with
  | None => (g, s, Continue)
  | Some original_value =>
      if isna original_value then (g, s, Continue)
      else
        let invalid :=
          match valid_values details with
          | Some vs => negb (cell_in original_value vs)
          | None => false
          end in
        if invalid
        then (g, add_error (invalid_value_message original_value field) s, Return false)
        else
          let mapped :=
            match mapping details with
            | Some d => Str <$> cell_lookup original_value d
            | None => Some original_value
            end in
          match mapped with
          | None =>
              (g, add_error (no_mapping_message original_value field) s, Return false)
          | Some value =>
              if String.eqb field "date" then
                date_step m details entity_uri value common_earliest_year g s
              else if bool_decide (object details = Some true) then
                match sanitize_uri (str value) with
                | Raise e => (g, s, Throw e)
                | Ret sanitized_value =>
                    match related_class details with
                    | None => (g, s, Throw KeyError)
                    | Some cls =>
                        let object_uri := URIRef (cls ++ "/" ++ sanitized_value) in
                        (add (object_uri, RDF_type, URIRef cls)
                           (add (entity_uri, URIRef (property details), object_uri) g),
                         s, Continue)
                    end
                end
              else
                let dt := default (XSD "string") (datatype details) in
                (add (entity_uri, URIRef (property details), Literal (str value) dt) g,
                 s, Continue)
          end
  end.

Fixpoint process_fields (r : row) (m : source_mapping) (entity_uri : term)
    (common_earliest_year : Z) (fs : list (string * field_details))
    (g : graph) (s : summary) : graph * summary * signal :=
  match fs with
  | [] => (g, s, Continue)
  | (field, details) :: rest =>
      match process_field r m entity_uri common_earliest_year field details g s with
      | (g', s', Continue) =>
          process_fields r m entity_uri common_earliest_year rest g' s'
      | stop => stop
      end
  end.

(** [transform_row_to_rdf]: the result, the graph and the summary after
    the call.  The handler of the outer [try] turns any exception into an
    entry of [errors] and [False]. *)
Definition transform_row_to_rdf (r : row) (m : source_mapping) (g : graph)
    (common_earliest_year : Z) (s : summary) (fresh : string)
  : bool * graph * summary :=
  match entity_uri_of r m fresh with
  | Raise e => (false, g, add_error (Exception e) s)
  | Ret entity_uri =>
      let g := add (entity_uri, RDF_type, URIRef (class m)) g in
      match process_fields r m entity_uri common_earliest_year (fields m) g s with
      | (g', s', Continue) => (true, g', s')
      | (g', s', Return ok) => (ok, g', s')
      | (g', s', Throw e) => (false, g', add_error (Exception e) s')
      end
  end.

(** *** The common earliest year *)

Fixpoint minimum (l : list Z) : option Z :=
  match l with
  | [] => None
  | x :: rest => Some (match minimum rest with Some m => Z.min x m | None => x end)
  end.

Fixpoint maximum (l : list Z) : option Z :=
  match l with
  | [] => None
  | x :: rest => Some (match maximum rest with Some m => Z.max x m | None => x end)
  end.

(** [pd.read_csv(input_file, usecols=['date'])] on the rows of a table. *)
Definition date_column (table : list chunk) : outcome (list cell) :=
  mapM (λ r, match get "date" r with
             | Some c => Ret c
             | None => Raise ValueError
             end) (concat table).

(** The year of a parsed date, or nothing for a date that did not parse:
    [int(x.split('-')[0]) if x else None]. *)
Definition year_or_none (x : option string) : outcome (option Z) :=
  match x with
  | None => Ret None
  | Some p => if String.eqb p "" then Ret None else y ← year_of p; Ret (Some y)
  end.

(** [float(z)] for an [int], as the integer that the 64-bit float equals:
    [z] itself below 2^53, otherwise [z] rounded to 53 significant bits,
    ties to the even mantissa; [None] when [z] is too large for a float
    ([OverflowError]). *)
Definition float64 (z : Z) : option Z :=
  let a := Z.abs z in
  if a <? 2 ^ 53 then Some z
  else
    let e := Z.log2 a - 52 in
    let q := a / 2 ^ e in
    let r := a mod 2 ^ e in
    let half := 2 ^ (e - 1) in
    let q := if (half <? r) || ((r =? half) && Z.odd q) then q + 1 else q in
    let v := q * 2 ^ e in
    if 2 ^ 1024 <=? v then None else Some (Z.sgn z * v).

(** One value of the [year] column on its way into a column of floats. *)
Definition to_float (y : Z) : outcome Z :=
  match float64 y with
  | Some f => Ret f
  | None => Raise OtherError                     (* OverflowError *)
  end.

(** The bounds of the 64-bit integers of a pandas column. *)
Definition INT64_MIN : Z := - 2 ^ 63.
Definition INT64_MAX : Z := 2 ^ 63 - 1.
Definition UINT64_MAX : Z := 2 ^ 64 - 1.

(** What pandas makes of the values that [apply] collected. *)
Inductive column_kind : Type :=
  | Integers                                     (* int64 or uint64 *)
  | Floats                                       (* float64, [NaN] for [None] *)
  | Objects.                                     (* the Python values *)

(** The pass of pandas over the collected values, from left to right.
    Every integer is first written into a buffer of floats, which raises
    [OverflowError] when it is too large for one.  As long as no [None]
    has been met, an integer outside the 64-bit ranges, or a column that
    needs both the signed and the unsigned range, ends the pass and the
    column keeps the Python values.  Otherwise the column is one of floats
    when a [None] was met and one of integers when none was. *)
Fixpoint infer_kind (years : list (option Z)) (null uint sint : bool)
  : outcome column_kind :=
  match years with
  | [] => Ret (if null then Floats else Integers)
  | None :: rest => infer_kind rest true uint sint
  | Some v :: rest =>
      _ ← to_float v;
      if null then infer_kind rest null uint sint
      else
        let sint := sint || ((INT64_MIN <=? v) && (v <? 0)) in
        let uint := uint || ((INT64_MAX <? v) && (v <=? UINT64_MAX)) in
        if (uint && sint) || (UINT64_MAX <? v) || (v <? INT64_MIN)
        then Ret Objects
        else infer_kind rest null uint sint
  end.

(** [df['year'].min()], with [None] for [NaN]; [min] passes over the
    missing values.  A column of floats gives the least float, written as
    the integer it equals; the other columns give the least year as it
    is. *)
Definition column_min (years : list (option Z)) : outcome (option Z) :=
  kind ← infer_kind years false false false;
  match kind with
  | Floats =>
      floats ← mapM to_float (omap id years);
      Ret (minimum floats)
  | Integers | Objects => Ret (minimum (omap id years))
  end.

(** The body of the [try] of [extract_earliest_year] on the processed
    table of the source ([None]: there is no such file).  A float that
    comes out of the column is written as the integer it equals: the
    comparisons that the year goes into are exact. *)
Definition extract_body (source_name : string) (table : option (list chunk))
  : outcome (option Z) :=
  match table with
  | None => Raise OtherError
  | Some t =>
      dates ← date_column t;
      parsed ← mapM (λ x, match mappings env !! source_name with
                          | None => Raise KeyError
                          | Some m => parse_date (Str (str x)) (date_format m)
                          end) dates;
      years ← mapM year_or_none parsed;
      column_min years
  end.

Definition extract_earliest_year (source_name : string)
    (table : option (list chunk)) : option Z :=
  match extract_body source_name table with
  | Ret earliest_year => earliest_year
  | Raise _ => None
  end.

(** *** Files *)

(** A Turtle file either parses to the graph that was serialised into it
    or cannot be read to the end; [read] holds the triples the parser
    delivers before it fails. *)
Inductive file : Type :=
  | Turtle (g : graph)
  | Unreadable (read : graph).

(** [g.parse(f, format="turtle")] on an existing graph: the triples read
    before a failure stay in it. *)
Definition parse_into (f : file) (g : graph) : graph * outcome unit :=
  match f with
  | Turtle triples => (g ∪ triples, Ret ())
  | Unreadable read => (g ∪ read, Raise OtherError)
  end.

(** [Graph().parse(f, format="turtle")]: a fresh graph, lost when the call
    raises. *)
Definition parse (f : file) : outcome graph :=
  match parse_into f ∅ with
  | (g, Ret _) => Ret g
  | (_, Raise e) => Raise e
  end.

(** The directories the module works on: the processed table of each
    source, the intermediate directory by file name, the transformed
    output of each source, and the summaries printed so far. *)
Record world : Type := {
  processed : gmap string (list chunk);
  intermediate : gmap string file;
  transformed : gmap string file;
  printed : list (string * summary);
}.

Definition find_common_earliest_year (w : world) (source_names : list string)
  : option Z :=
  let earliest_years :=
    map (λ source_name, extract_earliest_year source_name (processed w !! source_name))
        source_names in
  maximum (omap id earliest_years).

(** *** One source *)

Definition set_column (label : string) (v : cell) (r : row) : row :=
  if bool_decide (is_Some (get label r))
  then map (λ p, if String.eqb p.1 label then (p.1, v) else p) r
  else (r ++ [(label, v)])%list.

Definition drop_column (label : string) (r : row) : row :=
  filter (λ p, p.1 ≠ label) r.

Definition rename_column (old new : string) (r : row) : row :=
  map (λ p, if String.eqb p.1 old then (new, p.2) else p) r.

(** The location of one row, cleaned and validated; [Ret None] for a row
    that [dropna] removes. *)
Definition locate_row (r : row) : outcome (option row) :=
  match get "location_name" r with
  | None => Raise KeyError
  | Some (Str name) =>
      Ret (valid ← validate_location (clean_location_name name);
           Some (rename_column "valid_location" "location_name"
                   (drop_column "location_name"
                      (set_column "valid_location" (Str valid) r))))
  | Some _ => Raise AttributeError               (* no .endswith *)
  end.

(** The rows of a chunk that go on to the mapper; [Ret None] when the
    chunk is skipped. *)
Definition prepare_chunk (has_location : bool) (c : chunk)
  : outcome (option chunk) :=
  if has_location then
    located ← mapM locate_row c;
    match omap id located with
    | [] => Ret None
    | rows => Ret (Some rows)
    end
  else Ret (Some c).

Definition incr_total_rows (s : summary) : summary :=
  {| total_rows := S (total_rows s); mapped_rows := mapped_rows s;
     skipped_dates := skipped_dates s;
     invalid_locations := invalid_locations s; errors := errors s |}.

Definition incr_mapped_rows (s : summary) : summary :=
  {| total_rows := total_rows s; mapped_rows := S (mapped_rows s);
     skipped_dates := skipped_dates s;
     invalid_locations := invalid_locations s; errors := errors s |}.

(** The loop over [processed_chunk.iterrows()]. *)
Fixpoint transform_rows (source_name : string) (m : source_mapping)
    (common_earliest_year : Z) (rows : list row) (g : graph) (s : summary)
  : graph * summary :=
  match rows with
  | [] => (g, s)
  | r :: rest =>
      let fresh := uuid4 env source_name (total_rows s) in
      let s := incr_total_rows s in
      let '(ok, g, s) := transform_row_to_rdf r m g common_earliest_year s fresh in
      let s := if ok then incr_mapped_rows s else s in
      transform_rows source_name m common_earliest_year rest g s
  end.

Definition chunk_file_name (chunk_number : nat) : string :=
  "transformed_data_chunk_" ++ pretty chunk_number ++ ".ttl".

(** The loop over [enumerate(get_chunked_data(input_file))], from chunk
    [chunk_number] on; the files written stay when a later chunk raises. *)
Fixpoint transform_chunks (source_name : string) (m : source_mapping)
    (common_earliest_year : Z) (has_location : bool) (chunk_number : nat)
    (chunks : list chunk) (s : summary) (dir : gmap string file)
  : gmap string file * outcome summary :=
  match chunks with
  | [] => (dir, Ret s)
  | c :: rest =>
      let continue := transform_chunks source_name m common_earliest_year
                        has_location (S chunk_number) rest in
      match c with
      | [] => continue s dir
      | _ =>
          match prepare_chunk has_location c with
          | Raise e => (dir, Raise e)
          | Ret None => continue s dir
          | Ret (Some rows) =>
              let '(chunk_graph, s) :=
                transform_rows source_name m common_earliest_year rows ∅ s in
              continue s (<[chunk_file_name chunk_number := Turtle chunk_graph]> dir)
          end
      end
  end.

Definition with_intermediate (dir : gmap string file) (w : world) : world :=
  {| processed := processed w; intermediate := dir;
     transformed := transformed w; printed := printed w |}.

Definition load_and_transform_data (source_name : string)
    (common_earliest_year : Z) (w : world) : world * outcome summary :=
  match processed w !! source_name with
  | None => (w, Raise OtherError)                (* get_total_chunks *)
  | Some chunks =>
      match mappings env !! source_name with
      | None =>
          (w, Ret (add_error
                     (Message ("No mapping configuration found for source '"
                               ++ source_name ++ "'")) new_summary))
      | Some m =>
          let has_location := bool_decide ("location_name" ∈ (fields m).*1) in
          let '(dir, r) :=
            transform_chunks source_name m common_earliest_year has_location
              0 chunks new_summary (intermediate w) in
          (with_intermediate dir w, r)
      end
  end.

(** *** Merging the chunks of a source *)

(** [fnmatch(name, "transformed_data_chunk_*.ttl")]. *)
Definition is_chunk_file (name : string) : bool :=
  Py.startswith name "transformed_data_chunk_"
  && Py.endswith name ".ttl"
  && (27 <=? String.length name)%nat.

Definition name_le (a b : string * file) : Prop := String.leb a.1 b.1 = true.

#[local] Instance name_le_dec a b : Decision (name_le a b).
Proof. unfold name_le. apply _. Defined.

(** [sorted(Path(intermediate_dir).glob("transformed_data_chunk_*.ttl"))]. *)
Definition chunk_files (dir : gmap string file) : list (string * file) :=
  merge_sort name_le (filter (λ p, is_chunk_file p.1 = true) (map_to_list dir)).

(** [combined_graph += Graph().parse(chunk_file)] over the files. *)
Fixpoint combine (files : list file) (combined_graph : graph) : outcome graph :=
  match files with
  | [] => Ret combined_graph
  | f :: rest => g ← parse f; combine rest (combined_graph ∪ g)
  end.

Definition combine_ttl_files (source_name : string) (w : world)
  : world * outcome unit :=
  let files := chunk_files (intermediate w) in
  match files with
  | [] => (w, Raise ValueError)                  (* create_progress_bar *)
  | _ =>
      match combine files.*2 ∅ with
      | Raise e => (w, Raise e)
      | Ret combined_graph =>
          ({| processed := processed w;
              intermediate := foldr delete (intermediate w) files.*1;
              transformed := <[source_name := Turtle combined_graph]> (transformed w);
              printed := printed w |}, Ret ())
      end
  end.

(** *** The whole run *)

Definition print_summary (source_name : string) (s : summary) (w : world)
  : world :=
  {| processed := processed w; intermediate := intermediate w;
     transformed := transformed w;
     printed := (printed w ++ [(source_name, s)])%list |}.

(** The loop of [main] over the sources. *)
Fixpoint process_sources (common_earliest_year : Z) (source_names : list string)
    (w : world) : world * outcome unit :=
  match source_names with
  | [] => (w, Ret ())
  | source_name :: rest =>
      match load_and_transform_data source_name common_earliest_year w with
      | (w, Raise e) => (w, Raise e)
      | (w, Ret s) =>
          match combine_ttl_files source_name w with
          | (w, Raise e) => (w, Raise e)
          | (w, Ret _) =>
              process_sources common_earliest_year rest
                (print_summary source_name s w)
          end
      end
  end.

Definition main (source_names : list string) (w : world) : world * outcome unit :=
  match source_names with
  | [] => (w, Raise ValueError)                  (* get_source_names *)
  | _ =>
      match find_common_earliest_year w source_names with
      | None => (w, Ret ())
      | Some common_earliest_year =>
          process_sources common_earliest_year source_names w
      end
  end.

(** *** Populating the ontology (create_populate_ontology.py) *)

(** The loop of [populate_ontology]: a file that fails to parse is
    reported and skipped. *)
Fixpoint populate_ontology (ttl_files : list file) (g : graph) : graph :=
  match ttl_files with
  | [] => g
  | f :: rest => populate_ontology rest (parse_into f g).1
  end.

End Transform.

(** ** Reference definitions for the statements below *)

(** [a] occurs in [b] as a contiguous run of characters. *)
Definition substring_of (a b : string) : Prop :=
  ∃ before after, b = before ++ a ++ after.

Definition chars (s : string) : list ascii := list_ascii_of_string s.

(** The reading of the location rule in which a reference entry matches
    when either text contains the other. *)
Definition validate_location_either_way (valid_locations : list string)
    (location_name : string) : option string :=
  List.find
    (λ valid_location,
       Py.contains (Py.lower valid_location) (Py.lower location_name)
       || Py.contains (Py.lower location_name) (Py.lower valid_location))
    valid_locations.

(** The reading of the entity rule in which the natural identifier goes
    through [sanitize_uri] before it is substituted. *)
Definition entity_uri_sanitised (r : row) (m : source_mapping)
  : outcome term :=
  match get "transaction_id" r with
  | Some id =>
      transaction_id ← sanitize_uri (str id);
      u ← format (uri_pattern m) "transaction_id" transaction_id;
      Ret (URIRef u)
  | None => Raise KeyError
  end.


(** A registry entry for figures published by quarter only. *)
Definition quarterly : source_mapping :=
  {| class := ns "econ" "NationalEconomicIndicator";
     uri_pattern := [Text (NAMESPACES "econ" ++ "NationalEconomicIndicator/");
                     Field "unique_id"];
     date_format := OneFormat DATE_FORMATS.YYYY_Q;
     fields := [
       ("date", data_field (ns "time" "date") (XSD "gYearMonth"));
       ("unemployment_rate",
        data_field (ns "econ" "unemploymentRate") (XSD "decimal"))
     ] |}.

(** An environment for the examples: library parsers that reject every
    input (the examples use only the formats that [parse_date] reads with
    its own code, the academic year and the quarter), a list of locations
    and a registry. *)
Definition example_env (locations : list string)
    (registry : gmap string source_mapping) : environment :=
  {| pyfloat := unit;
     float_of_str := λ _, Raise ValueError;
     int_of_float := λ _, Raise ValueError;
     datetime := unit;
     strptime := λ _ _, Raise ValueError;
     strftime := λ _ _, Raise ValueError;
     dateutil_parse := λ _, Raise ValueError;
     valid_locations := locations;
     mappings := registry;
     uuid4 := λ source_name i, "row-" ++ pretty i |}.

(** A small run: three school-count rows in one chunk, one of them in a
    place the reference list does not know. *)
Definition schools_env : environment := example_env ["Leeds"; "York"] MAPPINGS.







(** Three sources: school counts by academic year and two series of
    quarterly rates. *)
Definition rates_env : environment :=
  example_env []
    (<["national_rates" := quarterly]>
       (<["regional_rates" := quarterly]> MAPPINGS)).






(** Two quarterly sources and, left in the intermediate directory, a chunk
    file that cannot be read. *)
Definition stale_world : world :=
  {| processed :=
       {[ "national_rates" :=
            [[ [("date", Str "2019 Q1"); ("unemployment_rate", Str "4.1")] ]];
          "regional_rates" :=
            [[ [("date", Str "2019 Q2"); ("unemployment_rate", Str "3.9")] ]] ]};
     intermediate := {[ "transformed_data_chunk_7.ttl" := Unreadable ∅ ]};
     transformed := ∅;
     printed := [] |}.

(** The same intermediate directory, met when the transformed directory
    already holds an output and its summary has been printed. *)
Definition half_done_world : world :=
  {| processed := processed stale_world;
     intermediate := intermediate stale_world;
     transformed :=
       {[ "school_count" :=
            Turtle {[ (URIRef (ns "house" "HousingMarketIndicator/x"), RDF_type,
                       URIRef (ns "house" "HousingMarketIndicator")) ]} ]};
     printed := [("school_count", new_summary)] |}.

(** The four summary fields that only the date step or the row loop
    touch. *)
Definition same_counts (s s' : summary) : Prop :=
  total_rows s' = total_rows s
  ∧ mapped_rows s' = mapped_rows s
  ∧ invalid_locations s' = invalid_locations s
  ∧ skipped_dates s ⊆ skipped_dates s'.



(** ** Chunk counts and progress bars (etl/data_loader.py) *)

Definition CHUNK_SIZE : Z := 100000.
Definition LARGE_FILE_THRESHOLD : Z := 100 * 1024 * 1024.

(** [get_total_chunks] on the size of the file ([None]: the path does not
    exist); [//] is floor division. *)
Definition get_total_chunks (file_size : option Z) : outcome Z :=
  match file_size with
  | None => Raise OtherError
  | Some size =>
      if LARGE_FILE_THRESHOLD <? size
      then Ret (- (- size / (CHUNK_SIZE * 1024)))
      else Ret 1
  end.

(** The check of [create_progress_bar]. *)
Definition create_progress_bar (total_chunks : Z) : outcome unit :=
  if total_chunks <? 1 then Raise ValueError else Ret ().

(** ** The skeleton of the ontology (ontology/create_populate_ontology.py) *)

Definition OWL (name : string) : string :=
  "http://www.w3.org/2002/07/owl#" ++ name.

Definition RDFS (name : string) : string :=
  "http://www.w3.org/2000/01/rdf-schema#" ++ name.

(** [Literal(name)]: a literal without a datatype, written with the empty
    datatype. *)
Definition plain (name : string) : term := Literal name "".

(** The four tables of [ontology_config] that [create_ontology] reads. *)
Record ontology_tables : Type := {
  CLASSES : list (string * string);                     (* name, uri *)
  SUBCLASSES : list (string * string * string);         (* name, uri, parent *)
  OBJECT_PROPERTIES : list (string * string * string * string);
                                                        (* name, uri, domain, range *)
  DATA_PROPERTIES : list (string * string);             (* name, uri *)
}.

Definition ontology_config : ontology_tables :=
  {| CLASSES := [
       ("Property", ns "prop" "Property");
       ("TimePoint", ns "time" "TimePoint");
       ("Location", ns "loc" "Location");
       ("EconomicIndicator", ns "econ" "EconomicIndicator") ];
     SUBCLASSES := [
       ("NationalEconomicIndicator", ns "econ" "NationalEconomicIndicator",
        ns "econ" "EconomicIndicator");
       ("LocalEconomicIndicator", ns "econ" "LocalEconomicIndicator",
        ns "econ" "EconomicIndicator");
       ("HousingMarketIndicator", ns "house" "HousingMarketIndicator",
        ns "econ" "LocalEconomicIndicator");
       ("Year", ns "time" "Year", ns "time" "TimePoint");
       ("YearMonth", ns "time" "YearMonth", ns "time" "TimePoint");
       ("FullDate", ns "time" "FullDate", ns "time" "TimePoint") ];
     OBJECT_PROPERTIES := [
       ("hasLocation", ns "prop" "hasLocation", ns "prop" "Property",
        ns "loc" "Location");
       ("soldAt", ns "prop" "soldAt", ns "prop" "Property", ns "time" "TimePoint");
       ("hasProperty", ns "loc" "hasProperty", ns "loc" "Location",
        ns "prop" "Property");
       ("hasEconomicIndicator", ns "loc" "hasEconomicIndicator",
        ns "loc" "Location", ns "econ" "EconomicIndicator");
       ("measuredAt", ns "econ" "measuredAt", ns "econ" "EconomicIndicator",
        ns "time" "TimePoint") ];
     DATA_PROPERTIES := [
       ("price", ns "prop" "price");
       ("propertyType", ns "prop" "propertyType");
       ("newBuild", ns "prop" "newBuild");
       ("tenure", ns "prop" "tenure");
       ("name", ns "loc" "name");
       ("date", ns "time" "date");
       ("year", ns "time" "year");
       ("yearMonth", ns "time" "yearMonth");
       ("rate", ns "econ" "rate");
       ("rateType", ns "econ" "rateType");
       ("additionalDwellings", ns "house" "additionalDwellings");
       ("schoolCount", ns "house" "schoolCount");
       ("unemploymentRate", ns "econ" "unemploymentRate");
       ("transactionStatus", ns "prop" "transactionStatus");
       ("transactionCategory", ns "prop" "transactionCategory");
       ("address1", ns "prop" "address1");
       ("address2", ns "prop" "address2");
       ("street", ns "prop" "street");
       ("locationName", ns "prop" "locationName");
       ("postcode", ns "prop" "postcode") ] |}.

(** The triples of one entry of each table, in the order of the [add]s. *)
Definition class_triples (c : string * string) : list triple :=
  let '(name, uri) := c in
  [ (URIRef uri, RDF_type, URIRef (OWL "Class"));
    (URIRef uri, URIRef (RDFS "label"), plain name) ].

Definition subclass_triples (c : string * string * string) : list triple :=
  let '(name, uri, parent) := c in
  [ (URIRef uri, RDF_type, URIRef (OWL "Class"));
    (URIRef uri, URIRef (RDFS "subClassOf"), URIRef parent);
    (URIRef uri, URIRef (RDFS "label"), plain name) ].

Definition object_property_triples (p : string * string * string * string)
  : list triple :=
  let '(name, uri, domain, range) := p in
  [ (URIRef uri, RDF_type, URIRef (OWL "ObjectProperty"));
    (URIRef uri, URIRef (RDFS "domain"), URIRef domain);
    (URIRef uri, URIRef (RDFS "range"), URIRef range);
    (URIRef uri, URIRef (RDFS "label"), plain name) ].

Definition data_property_triples (p : string * string) : list triple :=
  let '(prop_name, prop_uri) := p in
  [ (URIRef prop_uri, RDF_type, URIRef (OWL "DatatypeProperty"));
    (URIRef prop_uri, URIRef (RDFS "label"), plain prop_name) ].

(** [self.graph.add(t)] for each triple of a list, in order. *)
Definition add_all (ts : list triple) (g : graph) : graph :=
  foldl (λ g t, add t g) g ts.

(** [create_ontology] on the graph of the creator (binding the prefixes
    adds no triple). *)
Definition create_ontology (cfg : ontology_tables) (g : graph) : graph :=
  add_all (DATA_PROPERTIES cfg ≫= data_property_triples)
    (add_all (OBJECT_PROPERTIES cfg ≫= object_property_triples)
       (add_all (SUBCLASSES cfg ≫= subclass_triples)
          (add_all (CLASSES cfg ≫= class_triples) g))).

(** Two quarterly sources and an empty intermediate directory. *)
Definition quarterly_world : world :=
  {| processed :=
       {[ "national_rates" :=
            [[ [("date", Str "2019 Q1"); ("unemployment_rate", Str "4.1")];
               [("date", Str "2018 Q5"); ("unemployment_rate", Str "4.0")] ];
             [];
             [ [("date", Str "1999 Q4"); ("unemployment_rate", Str "5.9")];
               [("date", Str "2020 Q2"); ("unemployment_rate", Str "4.3")] ]];
          "regional_rates" :=
            [[ [("date", Str "2019 Q2"); ("unemployment_rate", Str "3.9")] ]] ]};
     intermediate := {[ "notes.txt" := Unreadable ∅ ]};
     transformed := ∅;
     printed := [] |}.

(** ** Rows, chunks and directories *)

(** Every row that was counted is either mapped or has left a trace. *)
Definition accounted (s : summary) : Prop :=
  (mapped_rows s + length (errors s) + size (skipped_dates s) ≤ total_rows s)%nat.

(** The rows of a whole table that go on to the mapper: the location
    filter of [prepare_chunk] on the rows of every chunk, one after the
    other. *)
Definition prepare_rows (env : environment) (has_location : bool)
    (rows : list row) : outcome (list row) :=
  if has_location then
    located ← mapM (locate_row env) rows;
    Ret (omap id located)
  else Ret rows.

(** The triples of the readable chunk files of a directory. *)
Definition chunk_triples (dir : gmap string file) (t : triple) : Prop :=
  ∃ name g, dir !! name = Some (Turtle g) ∧ is_chunk_file name = true ∧ t ∈ g.

(** No chunk file is left in the intermediate directory. *)
Definition clean_directory (w : world) : Prop :=
  ∀ name, is_chunk_file name = true → intermediate w !! name = None.



(** The world after a source whose rows gave [result] in one pass. *)
Definition after_source (source_name : string) (result : graph * summary)
    (w : world) : world :=
  {| processed := processed w;
     intermediate := intermediate w;
     transformed := <[source_name := Turtle result.1]> (transformed w);
     printed := (printed w ++ [(source_name, result.2)])%list |}.


(** The same environment with other identifiers drawn by [uuid4]. *)
Definition with_uuid4 (draws : string → nat → string) (env : environment)
  : environment :=
  {| pyfloat := pyfloat env;
     float_of_str := float_of_str env;
     int_of_float := int_of_float env;
     datetime := datetime env;
     strptime := strptime env;
     strftime := strftime env;
     dateutil_parse := dateutil_parse env;
     valid_locations := valid_locations env;
     mappings := mappings env;
     uuid4 := draws |}.


(** An intermediate directory with two readable chunk files, left by
    different runs, and a file of another kind. *)
Definition merge_world : world :=
  {| processed := ∅;
     intermediate :=
       {[ "transformed_data_chunk_0.ttl" :=
            Turtle {[ (URIRef (ns "econ" "a"), RDF_type,
                       URIRef (ns "econ" "NationalEconomicIndicator")) ]};
          "transformed_data_chunk_7.ttl" :=
            Turtle {[ (URIRef (ns "house" "b"), RDF_type,
                       URIRef (ns "house" "HousingMarketIndicator")) ]};
          "notes.txt" := Unreadable ∅ ]};
     transformed := ∅;
     printed := [] |}.

(** ** The registry against the row mapper *)

(** The checks on one field rule of a mapping: a relationship names the
    class of the related entity, the date field has neither a value list
    nor a value mapping, and a value mapping comes with a value list whose
    entries are all keys of the mapping. *)
Definition well_formed_field (field : string) (details : field_details) : bool :=
  implb (bool_decide (object details = Some true))
        (bool_decide (is_Some (related_class details)))
  && implb (String.eqb field "date")
           (bool_decide (valid_values details = None)
            && bool_decide (mapping details = None))
  && match mapping details with
     | None => true
     | Some d =>
         match valid_values details with
         | None => false
         | Some vs => forallb (λ s, bool_decide (is_Some (d !! s))) vs
         end
     end.

(** The keyword of the URI template of a source. *)
Definition template_key (source_name : string) : string :=
  if String.eqb source_name "price_paid" then "transaction_id" else "unique_id".

Definition well_formed_mapping (source_name : string) (m : source_mapping)
  : bool :=
  forallb (λ p, well_formed_field p.1 p.2) (fields m)
  && forallb (λ x, match x with
                   | Text _ => true
                   | Field key => String.eqb key (template_key source_name)
                   end) (uri_pattern m).

(** * Properties *)

(** ** Strings *)

Lemma startswith_spec (h n : string) :
  Py.startswith h n = true ↔ ∃ after, h = n ++ after.
Proof.
  revert h. induction n as [|c n IH]; intros h; simpl.
  - split; [intros _; by exists h | done].
  - destruct h as [|d h]; simpl.
    + split; [done | by intros [? ?]].
    + rewrite andb_true_iff, Ascii.eqb_eq, IH. split.
      * intros [-> [a ->]]. by exists a.
      * intros [a Ha]. injection Ha as -> ->. eauto.
Qed.

Lemma app_empty_r (a : string) : a ++ "" = a.
Proof.
  induction a as [|c a IH]; [done |].
  change (String c (a ++ "") = String c a). by rewrite IH.
Qed.

Lemma length_app (a b : string) :
  String.length (a ++ b) = (String.length a + String.length b)%nat.
Proof. induction a as [|c a IH]; simpl; [done | by rewrite IH]. Qed.

Lemma contains_spec (n h : string) :
  Py.contains n h = true ↔ substring_of n h.
Proof.
  unfold substring_of. induction h as [|c h IH]; simpl.
  - rewrite orb_false_r, startswith_spec. split.
    + intros [a Ha]. by exists "", a.
    + intros (b & a & Hb). destruct b; [by exists a | done].
  - rewrite orb_true_iff, startswith_spec, IH. split.
    + intros [[a Ha] | (b & a & Hb)].
      * by exists "", a.
      * exists (String c b), a. simpl. by rewrite Hb.
    + intros (b & a & Hb). destruct b as [|d b]; simpl in Hb.
      * left. by exists a.
      * right. exists b, a. by inversion Hb.
Qed.

Lemma endswith_spec (s suffix : string) :
  Py.endswith s suffix = true ↔ ∃ stem, s = stem ++ suffix.
Proof.
  induction s as [|c s IH]; cbn -[String.eqb].
  - rewrite orb_false_r, String.eqb_eq. split.
    + intros <-. by exists "".
    + intros [stem Hs]. destruct stem; simpl in Hs; [done | discriminate].
  - rewrite orb_true_iff, String.eqb_eq, IH. split.
    + intros [<- | [stem ->]]; [by exists "" | by exists (String c stem)].
    + intros [stem Hs]. destruct stem as [|d stem]; simpl in Hs.
      * by left.
      * right. exists stem. by inversion Hs.
Qed.

Lemma drop_last_app (stem suffix : string) :
  Py.drop_last (String.length suffix) (stem ++ suffix) = stem.
Proof.
  unfold Py.drop_last. rewrite length_app.
  replace (String.length stem + String.length suffix - String.length suffix)%nat
    with (String.length stem) by lia.
  induction stem as [|c stem IH]; simpl.
  - by destruct suffix.
  - by rewrite IH.
Qed.

(** ** URI sanitisation *)

Lemma underscore_code (x : ascii) : (Py.code x =? 95)%N = Ascii.eqb x "_".
Proof. by destruct x as [[] [] [] [] [] [] [] []]. Qed.

Lemma re_sub_non_word_length (value : string) :
  String.length (re_sub_non_word value) = String.length value.
Proof. induction value as [|c r IH]; simpl; [done | by rewrite IH]. Qed.

Lemma re_sub_non_word_get (value : string) (i : nat) (x : ascii) :
  String.get i value = Some x →
  String.get i (re_sub_non_word value) = Some (sanitize_char x).
Proof.
  revert i. induction value as [|c r IH]; intros i; simpl; [done |].
  destruct i as [|i]; [by intros [= ->] | apply IH].
Qed.

(** C7: every character outside alphanumeric, dash and underscore is
    replaced by one underscore, position by position, an underscore is put
    in front when the result of the substitution starts with a digit, and
    ["3 Main St!"] becomes ["_3_Main_St_"]. *)
Theorem sanitize_uri_replaces_and_escapes (value : string) :
  (value ≠ "" →
   ∃ body,
     sanitize_uri value
       = Ret (match String.get 0 body with
              | Some d => if Py.isdigit d then String "_" body else body
              | None => body
              end)
     ∧ String.length body = String.length value
     ∧ ∀ i x, String.get i value = Some x →
         String.get i body
           = Some (if Py.isalnum x || Ascii.eqb x "-" || Ascii.eqb x "_"
                   then x else "_"%char))
  ∧ sanitize_uri "3 Main St!" = Ret "_3_Main_St_".
Proof.
  split; [| reflexivity].
  intros Hne. exists (re_sub_non_word value). split; [| split].
  - unfold sanitize_uri. destruct value as [|c r]; [done |]. reflexivity.
  - apply re_sub_non_word_length.
  - intros i x Hx. rewrite (re_sub_non_word_get _ _ _ Hx). f_equal.
    unfold sanitize_char, Py.is_word. rewrite underscore_code.
    by destruct (Py.isalnum x), (Ascii.eqb x "-"), (Ascii.eqb x "_").
Qed.

Lemma sanitize_uri_replaces_and_escapes_witness :
  ∃ body,
    sanitize_uri "12 Elm Rd."
      = Ret (match String.get 0 body with
             | Some d => if Py.isdigit d then String "_" body else body
             | None => body
             end)
    ∧ String.length body = String.length "12 Elm Rd."
    ∧ ∀ i x, String.get i "12 Elm Rd." = Some x →
        String.get i body
          = Some (if Py.isalnum x || Ascii.eqb x "-" || Ascii.eqb x "_"
                  then x else "_"%char).
Proof.
  apply (proj1 (sanitize_uri_replaces_and_escapes "12 Elm Rd.")). discriminate.
Defined.

(** C10: the empty string makes [sanitize_uri] raise (it reads the first
    character of the substituted text); every other string gives a
    non-empty result. *)
Theorem sanitize_uri_defined_iff_nonempty :
  sanitize_uri "" = Raise IndexError
  ∧ ∀ value, value ≠ "" → ∃ r, sanitize_uri value = Ret r ∧ r ≠ "".
Proof.
  split; [reflexivity |].
  intros [|c r] Hne; [done |]. unfold sanitize_uri. cbn [re_sub_non_word].
  eexists. split; [reflexivity |]. by destruct (Py.isdigit (sanitize_char c)).
Qed.

Lemma sanitize_uri_defined_iff_nonempty_witness :
  ∃ r, sanitize_uri "!" = Ret r ∧ r ≠ "".
Proof.
  apply (proj2 sanitize_uri_defined_iff_nonempty "!"). discriminate.
Defined.

(** ** Location names *)

Lemma first_match_some (name : string) (l : list string) (v : string) :
  first_match name l = Some v ↔
  ∃ before after,
    l = (before ++ v :: after)%list
    ∧ substring_of (Py.lower v) (Py.lower name)
    ∧ ∀ u, u ∈ before → ¬ substring_of (Py.lower u) (Py.lower name).
Proof.
  induction l as [|w l IH]; simpl.
  - split; [done |]. intros (b & a & Hl & _). by destruct b.
  - destruct (Py.contains (Py.lower w) (Py.lower name)) eqn:Hw.
    + apply contains_spec in Hw. split.
      * intros [= <-]. exists [], l. split; [done |]. split; [done |].
        intros u Hu. by apply elem_of_nil in Hu.
      * intros (b & a & Hl & Hv & Hb). destruct b as [|u b]; simpl in Hl.
        -- by inversion Hl.
        -- inversion Hl; subst. exfalso. apply (Hb u); [left | done].
    + assert (¬ substring_of (Py.lower w) (Py.lower name)) as Hnw.
      { rewrite <- contains_spec. by rewrite Hw. }
      rewrite IH. split.
      * intros (b & a & -> & Hv & Hb). exists (w :: b), a.
        split; [done |]. split; [done |].
        intros u [-> | Hu]%elem_of_cons; auto.
      * intros (b & a & Hl & Hv & Hb). destruct b as [|u b]; simpl in Hl.
        -- inversion Hl; subst. done.
        -- inversion Hl; subst. exists b, a. split; [done |]. split; [done |].
           intros u' Hu'. apply Hb. by right.
Qed.

Lemma first_match_none (name : string) (l : list string) :
  first_match name l = None ↔
  ∀ u, u ∈ l → ¬ substring_of (Py.lower u) (Py.lower name).
Proof.
  induction l as [|w l IH]; simpl.
  - split; [| done]. intros _ u Hu. by apply elem_of_nil in Hu.
  - destruct (Py.contains (Py.lower w) (Py.lower name)) eqn:Hw.
    + split; [done |]. intros Hall. exfalso.
      apply (Hall w); [left | by apply contains_spec].
    + rewrite IH. split.
      * intros Hall u [-> | Hu]%elem_of_cons; [| by apply Hall].
        rewrite <- contains_spec. by rewrite Hw.
      * intros Hall u Hu. apply Hall. by right.
Qed.

(** C8, as the code has it: [clean_location_name] removes a final [" ua"]
    (in that exact case) and leaves every other name as it is;
    [validate_location] returns the first reference entry whose lower-cased
    text occurs inside the lower-cased candidate, and [None] when no entry
    does.  An entry that merely contains the candidate does not match. *)
Theorem location_validator_matches_one_way (env : environment) (name : string) :
  (∀ stem, name = stem ++ " ua" → clean_location_name name = stem)
  ∧ ((∀ stem, name ≠ stem ++ " ua") → clean_location_name name = name)
  ∧ (∀ v, validate_location env name = Some v ↔
       ∃ before after,
         valid_locations env = (before ++ v :: after)%list
         ∧ substring_of (Py.lower v) (Py.lower name)
         ∧ ∀ u, u ∈ before → ¬ substring_of (Py.lower u) (Py.lower name))
  ∧ (validate_location env name = None ↔
       ∀ u, u ∈ valid_locations env →
            ¬ substring_of (Py.lower u) (Py.lower name)).
Proof.
  unfold clean_location_name, validate_location. repeat split.
  - intros stem ->.
    assert (Py.endswith (stem ++ " ua") " ua" = true) as ->
      by (apply endswith_spec; eauto).
    apply (drop_last_app stem " ua").
  - intros Hno. destruct (Py.endswith name " ua") eqn:He; [| done].
    apply endswith_spec in He as [stem ->]. by destruct (Hno stem).
  - apply first_match_some.
  - apply first_match_some.
  - apply first_match_none.
  - apply first_match_none.
Qed.

Lemma location_validator_matches_one_way_witness :
  clean_location_name "Leeds ua" = "Leeds"
  ∧ clean_location_name "Leeds UA" = "Leeds UA"
  ∧ validate_location (example_env ["Leeds"; "London"] ∅) "City of LONDON"
    = Some "London".
Proof.
  split; [| split].
  - apply (proj1 (location_validator_matches_one_way (example_env [] ∅) "Leeds ua")).
    reflexivity.
  - apply (proj1 (proj2
      (location_validator_matches_one_way (example_env [] ∅) "Leeds UA"))).
    intros stem Hs.
    assert (Py.endswith "Leeds UA" " ua" = true) as He
      by (apply endswith_spec; eauto).
    vm_compute in He. discriminate.
  - apply (proj1 (proj2 (proj2
      (location_validator_matches_one_way
         (example_env ["Leeds"; "London"] ∅) "City of LONDON")))).
    exists ["Leeds"], []. split; [reflexivity |]. split.
    + by exists "city of ", "".
    + intros u ->%list_elem_of_singleton Hsub.
      apply contains_spec in Hsub. vm_compute in Hsub. discriminate.
Defined.

(** C8 as stated fails: with the reference list ["Greater London"] the
    candidate ["London"] is contained in the entry, yet the code finds no
    match. *)
Lemma validate_location_ignores_containing_entry :
  validate_location (example_env ["Greater London"] ∅) "London" = None
  ∧ validate_location_either_way ["Greater London"] "London"
    = Some "Greater London".
Proof. split; reflexivity. Qed.

(** ** Merging graphs *)

Lemma parse_turtle (t : graph) : parse (Turtle t) = Ret t.
Proof. unfold parse. cbn. by rewrite (left_id_L ∅ (∪)). Qed.

Lemma combine_swap (x y : file) (fs : list file) (g : graph) :
  combine (x :: y :: fs) g = combine (y :: x :: fs) g.
Proof.
  destruct x as [a|a], y as [b|b]; cbn [combine];
    rewrite ?parse_turtle; try done. cbn.
  f_equal. by rewrite <- !(assoc_L (∪)), (comm_L (∪) a b).
Qed.

Lemma combine_perm (fs fs' : list file) :
  fs ≡ₚ fs' → ∀ g, combine fs g = combine fs' g.
Proof.
  induction 1 as [|x l l' _ IH|x y l|l l' l'' _ IH1 _ IH2]; intros g.
  - done.
  - cbn [combine]. destruct (parse x); cbn; [apply IH | done].
  - apply combine_swap.
  - by rewrite IH1.
Qed.

Lemma populate_ontology_perm (fs fs' : list file) :
  fs ≡ₚ fs' → ∀ g, populate_ontology fs g = populate_ontology fs' g.
Proof.
  induction 1 as [|x l l' _ IH|x y l|l l' l'' _ IH1 _ IH2]; intros g.
  - done.
  - cbn. apply IH.
  - destruct x as [a|a], y as [b|b]; cbn; f_equal;
      by rewrite <- !(assoc_L (∪)), (comm_L (∪) a b).
  - by rewrite IH1.
Qed.

(** C6: merging is commutative and idempotent on triple sets.  Chunks [A]
    and [B] merged in either order give the set [A ∪ B], a chunk merged
    with itself gives the chunk, and neither the merge of the chunks of a
    source nor the union of the source graphs into the ontology depends on
    the order of the files. *)
Theorem merge_commutative_idempotent (A B : graph) :
  combine [Turtle A; Turtle B] ∅ = combine [Turtle B; Turtle A] ∅
  ∧ combine [Turtle A; Turtle B] ∅ = Ret (A ∪ B)
  ∧ combine [Turtle A; Turtle A] ∅ = combine [Turtle A] ∅
  ∧ combine [Turtle A] ∅ = Ret A
  ∧ (∀ fs fs' g, fs ≡ₚ fs' → combine fs g = combine fs' g)
  ∧ (∀ fs fs' g, fs ≡ₚ fs' →
       populate_ontology fs g = populate_ontology fs' g)
  ∧ (∀ g, populate_ontology [Turtle A; Turtle A] g
          = populate_ontology [Turtle A] g).
Proof.
  repeat split.
  - cbn [combine]. rewrite !parse_turtle. cbn.
    f_equal. by rewrite !(left_id_L ∅ (∪)), (comm_L (∪) A B).
  - cbn [combine]. rewrite !parse_turtle. cbn.
    f_equal. by rewrite !(left_id_L ∅ (∪)).
  - cbn [combine]. rewrite !parse_turtle. cbn.
    f_equal. by rewrite !(left_id_L ∅ (∪)), (idemp_L (∪) A).
  - cbn [combine]. rewrite !parse_turtle. cbn.
    f_equal. by rewrite !(left_id_L ∅ (∪)).
  - intros fs fs' g Hp. by apply combine_perm.
  - intros fs fs' g Hp. by apply populate_ontology_perm.
  - intros g. cbn. by rewrite <- (assoc_L (∪)), (idemp_L (∪) A).
Qed.

Lemma merge_commutative_idempotent_witness :
  combine [Turtle {[ (URIRef "s", URIRef "p", URIRef "o") ]}; Unreadable ∅; Turtle ∅] ∅
  = combine [Turtle ∅; Turtle {[ (URIRef "s", URIRef "p", URIRef "o") ]}; Unreadable ∅] ∅.
Proof.
  apply (proj1 (proj2 (proj2 (proj2 (proj2
           (merge_commutative_idempotent ∅ ∅)))))).
  symmetry. apply Permutation_cons_append.
Defined.

(** ** Quarter dates *)

Lemma parse_with_quarter (env : environment) (d : string) :
  parse_with env d DATE_FORMATS.YYYY_Q
  = match Py.split_ws d with
    | [year; q] =>
        month ← quarter_month (Py.upper q);
        Ret (Some (year ++ "-" ++ month))
    | _ => Raise ValueError
    end.
Proof. reflexivity. Qed.

Lemma quarter_month_raises (q : string) (e : exn) :
  quarter_month q = Raise e → e = KeyError.
Proof.
  unfold quarter_month.
  repeat (destruct (String.eqb q _); [done |]). by intros [= <-].
Qed.

(** What [parse_date] does with a string under the quarter format alone:
    two tokens and a known quarter give the first month of the quarter;
    another number of tokens is a [ValueError], which the loop swallows; an
    unknown quarter token is a [KeyError], which it does not. *)
Lemma parse_date_quarter (env : environment) (s : string) :
  let result := parse_date env (Str s) (OneFormat DATE_FORMATS.YYYY_Q) in
  match Py.split_ws (Py.strip s) with
  | [year; q] =>
      match quarter_month (Py.upper q) with
      | Ret month => result = Ret (Some (year ++ "-" ++ month))
      | Raise e => result = Raise KeyError
      end
  | _ => result = Ret None
  end.
Proof.
  unfold parse_date, isna, str, try_formats. rewrite parse_with_quarter.
  destruct (Py.split_ws (Py.strip s)) as [|year [|q [|? ?]]]; try done.
  destruct (quarter_month (Py.upper q)) as [month|e] eqn:Hq; [done |].
  by rewrite (quarter_month_raises _ _ Hq).
Qed.

Lemma quarter_token_any_case :
  Py.upper "q1" = "Q1" ∧ Py.upper "Q2" = "Q2"
  ∧ Py.upper "q3" = "Q3" ∧ Py.upper "Q4" = "Q4".
Proof. repeat split. Qed.

Lemma parse_date_quarter_examples (env : environment) :
  parse_date env (Str "2019 Q1") (OneFormat DATE_FORMATS.YYYY_Q) = Ret (Some "2019-01")
  ∧ parse_date env (Str "2019 q2") (OneFormat DATE_FORMATS.YYYY_Q) = Ret (Some "2019-04")
  ∧ parse_date env (Str " 2019  Q3 ") (OneFormat DATE_FORMATS.YYYY_Q) = Ret (Some "2019-07")
  ∧ parse_date env (Str "2019 q4") (OneFormat DATE_FORMATS.YYYY_Q) = Ret (Some "2019-10")
  ∧ parse_date env (Str "2019") (OneFormat DATE_FORMATS.YYYY_Q) = Ret None.
Proof. repeat split. Qed.

(** C4: under the quarter format an unrecognised quarter token does not
    make [parse_date] return [None]: the lookup raises [KeyError], which
    the handler for [ValueError] lets through. *)
Theorem parse_date_unknown_quarter_raises (env : environment) :
  parse_date env (Str "2019 Q5") (OneFormat DATE_FORMATS.YYYY_Q)
  = Raise KeyError.
Proof. reflexivity. Qed.

(** ** The entity URI *)

Lemma remove_char_filter (c : ascii) (s : string) :
  chars (Py.remove_char c s) = filter (λ d, d ≠ c) (chars s).
Proof.
  induction s as [|d s IH]; [done |]. cbn -[filter Ascii.eqb].
  rewrite filter_cons. destruct (Ascii.eqb c d) eqn:E.
  - apply Ascii.eqb_eq in E as ->. by rewrite decide_False by naive_solver.
  - apply Ascii.eqb_neq in E. rewrite decide_True by naive_solver.
    cbn. f_equal. exact IH.
Qed.

(** C3, as the code has it: the natural identifier is turned into text,
    its braces are removed and every other character is kept; that text is
    substituted for [{transaction_id}] in the URI template.  It does not
    go through [sanitize_uri]. *)
Theorem natural_id_uri_strips_braces (r : row) (m : source_mapping)
    (fresh : string) (id : cell) :
  get "transaction_id" r = Some id →
  ∃ v,
    chars v = filter (λ d, d ≠ "}"%char ∧ d ≠ "{"%char) (chars (str id))
    ∧ entity_uri_of r m fresh
      = (u ← format (uri_pattern m) "transaction_id" v; Ret (URIRef u))
    ∧ ∀ p, uri_pattern m = [Text p; Field "transaction_id"] →
           entity_uri_of r m fresh = Ret (URIRef (p ++ v)).
Proof.
  intros Hid. exists (Py.remove_char "}" (Py.remove_char "{" (str id))).
  split; [| split].
  - rewrite !remove_char_filter. apply list_filter_filter.
  - unfold entity_uri_of. by rewrite Hid.
  - intros p Hp. unfold entity_uri_of. rewrite Hid, Hp. cbn.
    by rewrite app_empty_r.
Qed.

Lemma natural_id_uri_strips_braces_witness :
  ∃ v,
    chars v = filter (λ d, d ≠ "}"%char ∧ d ≠ "{"%char) (chars "{A-1}")
    ∧ entity_uri_of [("transaction_id", Str "{A-1}")] price_paid ""
      = (u ← format (uri_pattern price_paid) "transaction_id" v; Ret (URIRef u))
    ∧ ∀ p, uri_pattern price_paid = [Text p; Field "transaction_id"] →
           entity_uri_of [("transaction_id", Str "{A-1}")] price_paid ""
           = Ret (URIRef (p ++ v)).
Proof.
  apply (natural_id_uri_strips_braces
           [("transaction_id", Str "{A-1}")] price_paid "" (Str "{A-1}")).
  reflexivity.
Defined.

(** C3 as stated fails: for a price-paid row the identifier
    [{5BBE9CB3-6332-4EB0-9CD3-8737CEA4A65A}] yields a URI whose last
    segment starts with a digit, where sanitising would have given
    underscores for the braces. *)
Lemma natural_id_is_not_sanitised :
  entity_uri_of
    [("transaction_id", Str "{5BBE9CB3-6332-4EB0-9CD3-8737CEA4A65A}")]
    price_paid ""
  = Ret (URIRef
      "http://example.org/property#Property/5BBE9CB3-6332-4EB0-9CD3-8737CEA4A65A")
  ∧ entity_uri_sanitised
      [("transaction_id", Str "{5BBE9CB3-6332-4EB0-9CD3-8737CEA4A65A}")]
      price_paid
    = Ret (URIRef
        "http://example.org/property#Property/_5BBE9CB3-6332-4EB0-9CD3-8737CEA4A65A_").
Proof. split; reflexivity. Qed.

(** ** What one row can change *)

Lemma add_subseteq (t : triple) (g : graph) : g ⊆ add t g.
Proof. unfold add. apply union_subseteq_r. Qed.

Lemma elem_of_add (t : triple) (g : graph) : t ∈ add t g.
Proof. unfold add. apply elem_of_union_l, elem_of_singleton_2. reflexivity. Qed.

Ltac grows :=
  repeat first
    [ reflexivity
    | (etrans; [| apply add_subseteq]) ].

Lemma map_date_to_ontology_grows (p : string) (g : graph) (cey : Z) :
  g ⊆ (map_date_to_ontology p g cey).2.
Proof.
  unfold map_date_to_ontology, map_date_body.
  destruct (String.eqb p ""); [done |].
  destruct (year_of p) as [year|]; [| done]. cbn.
  repeat case_match; simplify_eq; cbn; grows.
Qed.


Lemma same_counts_refl (s : summary) : same_counts s s.
Proof. done. Qed.

Lemma same_counts_trans (s1 s2 s3 : summary) :
  same_counts s1 s2 → same_counts s2 s3 → same_counts s1 s3.
Proof.
  intros (? & ? & ? & ?) (? & ? & ? & ?). repeat split; try congruence.
  by etrans.
Qed.

Lemma same_counts_add_error (e : error) (s : summary) :
  same_counts s (add_error e s).
Proof. done. Qed.

Lemma same_counts_add_skipped (v : cell) (s : summary) :
  same_counts s (add_skipped_date v s).
Proof. repeat split. apply union_subseteq_r. Qed.

Lemma date_step_inv (env : environment) m details entity value cey g s g' s' sig :
  date_step env m details entity value cey g s = (g', s', sig) →
  g ⊆ g' ∧ same_counts s s'.
Proof.
  unfold date_step. intros H.
  pose proof (map_date_to_ontology_grows) as Hg.
  repeat case_match; simplify_eq;
    (split; [| first [apply same_counts_refl | apply same_counts_add_skipped]]);
    try done.
  - etrans; [| apply add_subseteq].
    match goal with
    | E : map_date_to_ontology ?p ?g ?c = _ |- _ =>
        specialize (Hg p g c); by rewrite E in Hg
    end.
  - match goal with
    | E : map_date_to_ontology ?p ?g ?c = _ |- _ =>
        specialize (Hg p g c); by rewrite E in Hg
    end.
Qed.

Lemma process_field_inv (env : environment) r m entity cey field details
    g s g' s' sig :
  process_field env r m entity cey field details g s = (g', s', sig) →
  g ⊆ g' ∧ same_counts s s'
  ∧ (field ≠ "date" → skipped_dates s' = skipped_dates s).
Proof.
  unfold process_field. intros H.
  destruct (get field r) as [original_value|]; [| by simplify_eq].
  destruct (isna original_value); [by simplify_eq |].
  destruct (match valid_values details with
            | Some vs => negb (cell_in original_value vs)
            | None => false
            end); [by simplify_eq |].
  destruct (match mapping details with
            | Some d => Str <$> cell_lookup original_value d
            | None => Some original_value
            end) as [value|]; [| by simplify_eq].
  destruct (String.eqb field "date") eqn:Hf.
  - apply String.eqb_eq in Hf. apply date_step_inv in H as [? ?].
    split; [done |]. split; [done |]. by intros [].
  - repeat case_match; simplify_eq; (split; [grows | done]).
Qed.

Lemma process_fields_inv (env : environment) r m entity cey fs :
  ∀ g s g' s' sig,
    process_fields env r m entity cey fs g s = (g', s', sig) →
    g ⊆ g' ∧ same_counts s s'
    ∧ ("date" ∉ fs.*1 → skipped_dates s' = skipped_dates s).
Proof.
  induction fs as [|[field details] fs IH]; intros g s g' s' sig H; cbn in H.
  - by simplify_eq.
  - destruct (process_field env r m entity cey field details g s)
      as [[g1 s1] sig1] eqn:H1.
    apply process_field_inv in H1 as (Hg1 & Hs1 & Hd1).
    assert ("date" ∉ ((field, details) :: fs).*1 →
            field ≠ "date" ∧ "date" ∉ fs.*1) as Hsplit.
    { cbn. rewrite not_elem_of_cons. intros [? ?]. split; [congruence | done]. }
    destruct sig1.
    + apply IH in H as (Hg & Hs & Hd).
      split; [by etrans |]. split; [by eapply same_counts_trans |].
      intros [? ?]%Hsplit. rewrite Hd, Hd1; done.
    + simplify_eq. split; [done |]. split; [done |].
      intros [? ?]%Hsplit. by apply Hd1.
    + simplify_eq. split; [done |]. split; [done |].
      intros [? ?]%Hsplit. by apply Hd1.
Qed.

Lemma process_fields_app (env : environment) r m entity cey fs1 fs2 g s :
  process_fields env r m entity cey (fs1 ++ fs2) g s
  = match process_fields env r m entity cey fs1 g s with
    | (g1, s1, Continue) => process_fields env r m entity cey fs2 g1 s1
    | stop => stop
    end.
Proof.
  revert g s. induction fs1 as [|[field details] fs1 IH]; intros g s; cbn.
  - done.
  - destruct (process_field env r m entity cey field details g s)
      as [[g1 s1] []]; [apply IH | done | done].
Qed.


(** ** The date of a row *)

Lemma year_of_empty : year_of "" = Raise ValueError.
Proof. reflexivity. Qed.

Lemma process_field_date (env : environment) r m entity cey details value g s :
  valid_values details = None → mapping details = None →
  get "date" r = Some value → isna value = false →
  process_field env r m entity cey "date" details g s
  = date_step env m details entity value cey g s.
Proof.
  intros Hv Hm Hget Hna. unfold process_field.
  by rewrite Hget, Hna, Hv, Hm.
Qed.

(** What [map_date_to_ontology] answers for a date whose year is read and
    not before the watermark: the length of the text decides. *)
Lemma map_date_to_ontology_by_length (p : string) (g : graph) (cey y : Z) :
  year_of p = Ret y → cey ≤ y →
  match String.length p with
  | 4%nat => (map_date_to_ontology p g cey).1 = Some (time_entity "Year" p)
  | 7%nat => (map_date_to_ontology p g cey).1 = Some (time_entity "YearMonth" p)
  | 10%nat => (map_date_to_ontology p g cey).1 = Some (time_entity "FullDate" p)
  | 9%nat =>
      match Py.split_on "-" p with
      | [_; _] =>
          (map_date_to_ontology p g cey).1 = Some (time_entity "AcademicYear" p)
      | _ => map_date_to_ontology p g cey = (None, g)
      end
  | _ => map_date_to_ontology p g cey = (None, g)
  end.
Proof.
  intros Hy Hle. unfold map_date_to_ontology, map_date_body.
  destruct (String.eqb p "") eqn:Hp.
  { apply String.eqb_eq in Hp as ->. by rewrite year_of_empty in Hy. }
  rewrite Hy. cbn [mbind outcome_bind].
  assert ((y <? cey) = false) as -> by lia.
  destruct (String.length p) as [|[|[|[|[|[|[|[|[|[|[|n]]]]]]]]]]]; cbn; try done.
  by destruct (Py.split_on "-" p) as [|? [|? [|? ?]]].
Qed.

Lemma finish_row (r : graph * summary * signal) :
  let result :=
    match r with
    | (g', s', Continue) => (true, g', s')
    | (g', s', Return ok) => (ok, g', s')
    | (g', s', Throw e) => (false, g', add_error (Exception e) s')
    end in
  result.1.2 = r.1.1 ∧ skipped_dates (result.2) = skipped_dates (r.1.2).
Proof. by destruct r as [[g' s'] []]. Qed.

(** C1, as the code has it.  The date field of a row that reaches it
    (earlier fields passed; the field has no value list and no value
    mapping): when [parse_date] returns nothing, or the year is before the
    watermark, or the normalised text is not 4, 7, 9 or 10 characters long
    (or is 9 long without exactly one dash), the value is put into
    [skipped_dates] and the row fails; otherwise the entity is linked to
    the time entity of that length and [skipped_dates] is as before. *)
Theorem date_field_outcome (env : environment) (r : row) (m : source_mapping)
    (g : graph) (cey : Z) (s : summary) (fresh : string)
    (before after : list (string * field_details)) (details : field_details)
    (value : cell) (entity : term) (g1 : graph) (s1 : summary) :
  fields m = (before ++ ("date", details) :: after)%list →
  NoDup (fields m).*1 →
  valid_values details = None → mapping details = None →
  get "date" r = Some value → isna value = false →
  entity_uri_of r m fresh = Ret entity →
  process_fields env r m entity cey before
    (add (entity, RDF_type, URIRef (class m)) g) s = (g1, s1, Continue) →
  let result := transform_row_to_rdf env r m g cey s fresh in
  let skipped := result.1.1 = false ∧ value ∈ skipped_dates (result.2) in
  let linked kind p :=
    (entity, URIRef (property details), time_entity kind p) ∈ result.1.2
    ∧ skipped_dates (result.2) = skipped_dates s in
  (parse_date env value (date_format m) = Ret None → skipped)
  ∧ ∀ p y,
      parse_date env value (date_format m) = Ret (Some p) →
      year_of p = Ret y →
      (y < cey → skipped)
      ∧ (cey ≤ y →
         match String.length p with
         | 4%nat => linked "Year" p
         | 7%nat => linked "YearMonth" p
         | 10%nat => linked "FullDate" p
         | 9%nat =>
             match Py.split_on "-" p with
             | [_; _] => linked "AcademicYear" p
             | _ => skipped
             end
         | _ => skipped
         end).
Proof.
  intros Hfields Hnodup Hv Hm Hget Hna Hent Hbefore result skipped linked.
  assert (("date" ∉ before.*1) ∧ ("date" ∉ after.*1)) as [Hnb Hna'].
  { rewrite Hfields, fmap_app, fmap_cons in Hnodup. cbn in Hnodup.
    apply NoDup_app in Hnodup as (_ & Hb & Ha).
    apply NoDup_cons in Ha as [Ha _]. split; [| done].
    intros Hin. apply (Hb _ Hin). by left. }
  assert (skipped_dates s1 = skipped_dates s) as Hs1.
  { by apply process_fields_inv in Hbefore as (_ & _ & ->). }
  assert (result
          = match date_step env m details entity value cey g1 s1 with
            | (g2, s2, Continue) =>
                match process_fields env r m entity cey after g2 s2 with
                | (g', s', Continue) => (true, g', s')
                | (g', s', Return ok) => (ok, g', s')
                | (g', s', Throw e) => (false, g', add_error (Exception e) s')
                end
            | (g2, s2, Return ok) => (ok, g2, s2)
            | (g2, s2, Throw e) => (false, g2, add_error (Exception e) s2)
            end) as Hres.
  { subst result. unfold transform_row_to_rdf.
    rewrite Hent, Hfields, process_fields_app, Hbefore. cbn [process_fields].
    rewrite (process_field_date env r m entity cey details value g1 s1) by done.
    by destruct (date_step env m details entity value cey g1 s1) as [[g2 s2] []]. }
  assert (∀ g2, (g2, add_skipped_date value s1, Return false)
                = date_step env m details entity value cey g1 s1 → skipped)
    as Hskip.
  { intros g2 Hd. subst skipped. rewrite Hres, <- Hd. cbn.
    split; [done |]. apply elem_of_union_l, elem_of_singleton_2. reflexivity. }
  assert (∀ kind p g2,
            (add (entity, URIRef (property details), time_entity kind p) g2,
             s1, Continue)
            = date_step env m details entity value cey g1 s1 → linked kind p)
    as Hlink.
  { intros kind p g2 Hd. subst linked. rewrite Hres, <- Hd.
    destruct (process_fields env r m entity cey after
                (add (entity, URIRef (property details), time_entity kind p) g2) s1)
      as [[g' s'] sig] eqn:Hafter.
    pose proof (finish_row (g', s', sig)) as [Hg Hs]. cbn in Hg, Hs.
    rewrite Hg, Hs.
    apply process_fields_inv in Hafter as (Hsub & _ & Hsk).
    split; [apply Hsub, elem_of_add | by rewrite Hsk]. }
  split.
  - intros Hp. apply (Hskip g1). unfold date_step. by rewrite Hp.
  - intros p y Hp Hy.
    assert (String.eqb p "" = false) as Hne.
    { destruct (String.eqb p "") eqn:E; [| done].
      apply String.eqb_eq in E as ->. by rewrite year_of_empty in Hy. }
    split.
    + intros Hlt. apply (Hskip g1). unfold date_step.
      rewrite Hp, Hne, Hy. by assert ((cey <=? y) = false) as -> by lia.
    + intros Hle.
      pose proof (map_date_to_ontology_by_length p g1 cey y Hy Hle) as Hlen.
      assert (date_step env m details entity value cey g1 s1
              = match map_date_to_ontology p g1 cey with
                | (Some date_uri, g') =>
                    (add (entity, URIRef (property details), date_uri) g', s1, Continue)
                | (None, g') => (g', add_skipped_date value s1, Return false)
                end) as Hd.
      { unfold date_step. rewrite Hp, Hne, Hy.
        by assert ((cey <=? y) = true) as -> by lia. }
      destruct (map_date_to_ontology p g1 cey) as [o g2] eqn:Hmap.
      destruct (String.length p) as [|[|[|[|[|[|[|[|[|[|[|n]]]]]]]]]]];
        cbn in Hlen; simplify_eq; try (by apply (Hskip g1));
        try (by eapply Hlink).
      destruct (Py.split_on "-" p) as [|? [|? [|? ?]]];
        cbn in Hlen; simplify_eq; try (by apply (Hskip g1)).
      by eapply Hlink.
Qed.

Lemma date_field_outcome_witness :
  let result :=
    transform_row_to_rdf (example_env [] ∅)
      [("date", Str "2019 Q3"); ("unemployment_rate", Str "4.1")]
      quarterly ∅ 2000 new_summary "f" in
  (URIRef "http://example.org/economic#NationalEconomicIndicator/NationalEconomicIndicator_f",
   URIRef (ns "time" "date"), time_entity "YearMonth" "2019-07") ∈ result.1.2
  ∧ skipped_dates (result.2) = ∅.
Proof.
  assert (NoDup (fields quarterly).*1) as Hnodup.
  { cbn. apply NoDup_cons. split; [| apply NoDup_singleton].
    by intros ?%list_elem_of_singleton. }
  pose proof
    (date_field_outcome (example_env [] ∅)
       [("date", Str "2019 Q3"); ("unemployment_rate", Str "4.1")]
       quarterly ∅ 2000 new_summary "f"
       []
       [("unemployment_rate",
         data_field (ns "econ" "unemploymentRate") (XSD "decimal"))]
       (data_field (ns "time" "date") (XSD "gYearMonth"))
       (Str "2019 Q3")
       (URIRef "http://example.org/economic#NationalEconomicIndicator/NationalEconomicIndicator_f")
       _ new_summary
       eq_refl Hnodup eq_refl eq_refl eq_refl eq_refl eq_refl eq_refl)
    as [_ H].
  destruct (H "2019-07" 2019 eq_refl eq_refl) as [_ H'].
  apply H'. lia.
Defined.

(** C1 as stated fails: under the quarter format the date ["20190 Q1"]
    normalises to ["20190-01"], whose year 20190 is not before the
    watermark 2000, and still the row fails and the date is recorded as
    skipped, because the text is eight characters long. *)
Lemma overlong_year_is_skipped :
  let env := example_env [] ∅ in
  let result :=
    transform_row_to_rdf env
      [("date", Str "20190 Q1"); ("unemployment_rate", Str "4.1")]
      quarterly ∅ 2000 new_summary "f" in
  parse_date env (Str "20190 Q1") (date_format quarterly)
    = Ret (Some "20190-01")
  ∧ year_of "20190-01" = Ret 20190
  ∧ result.1.1 = false
  ∧ Str "20190 Q1" ∈ skipped_dates (result.2).
Proof.
  repeat split.
Qed.

(** A row whose quarter token is unknown ends in the handler of
    [transform_row_to_rdf]: it fails with an entry in [errors] and nothing
    in [skipped_dates]. *)
Lemma unknown_quarter_row_is_an_error :
  let result :=
    transform_row_to_rdf (example_env [] ∅)
      [("date", Str "2019 Q5"); ("unemployment_rate", Str "4.1")]
      quarterly ∅ 2000 new_summary "f" in
  result.1.1 = false
  ∧ skipped_dates (result.2) = ∅
  ∧ errors (result.2) = [Exception KeyError].
Proof. repeat split. Qed.

(** ** The rows of a source *)











(** ** The common earliest year *)




(** What [mapM] does in the exception monad. *)
Lemma mapM_cases {A B : Type} (f : A → outcome B) (l : list A) :
  match mapM f l with
  | Ret ys => Forall2 (λ x y, f x = Ret y) l ys
  | Raise _ => ∃ x e, x ∈ l ∧ f x = Raise e
  end.
Proof.
  induction l as [|a l IH]; cbn; [constructor |].
  destruct (f a) as [b|e] eqn:Ha; cbn.
  - destruct (mapM f l) as [ys|e]; cbn.
    + by constructor.
    + destruct IH as (x & e' & Hx & He). exists x, e'. split; [by right | done].
  - exists a, e. split; [by left | done].
Qed.






Section Earliest.

Context (env : environment) (source_name : string) (m : source_mapping).
Context (table : list chunk) (dates : list cell).

Hypothesis Hm : mappings env !! source_name = Some m.
Hypothesis Hdates : date_column table = Ret dates.







End Earliest.







(** ** A merge that cannot read a chunk *)

Lemma combine_unreadable (files : list file) (g read : graph) :
  Unreadable read ∈ files → combine files g = Raise OtherError.
Proof.
  revert g. induction files as [|f files IH]; intros g Hin.
  - by apply elem_of_nil in Hin.
  - destruct f as [a|a]; [| done]. cbn [combine]. rewrite parse_turtle. cbn.
    apply elem_of_cons in Hin as [? | Hin]; [done | by apply IH].
Qed.

Lemma elem_of_chunk_files (dir : gmap string file) (name : string) (f : file) :
  (name, f) ∈ chunk_files dir ↔ dir !! name = Some f ∧ is_chunk_file name = true.
Proof.
  unfold chunk_files.
  rewrite merge_sort_Permutation, list_elem_of_filter, elem_of_map_to_list.
  cbn. tauto.
Qed.

Lemma combine_ttl_files_unreadable (source_name : string) (w : world)
    (name : string) (read : graph) :
  is_chunk_file name = true →
  intermediate w !! name = Some (Unreadable read) →
  combine_ttl_files source_name w = (w, Raise OtherError).
Proof.
  intros Hname Hfile. unfold combine_ttl_files.
  assert ((name, Unreadable read) ∈ chunk_files (intermediate w)) as Hin
    by (by apply elem_of_chunk_files).
  destruct (chunk_files (intermediate w)) as [|p files] eqn:Hfiles.
  - by apply elem_of_nil in Hin.
  - rewrite (combine_unreadable _ _ read); [done |].
    by apply (list_elem_of_fmap_2 snd _ (name, Unreadable read)).
Qed.

Lemma process_sources_app (env : environment) (cey : Z)
    (first rest : list string) (w : world) :
  process_sources env cey (first ++ rest) w
  = match process_sources env cey first w with
    | (w', Ret _) => process_sources env cey rest w'
    | stop => stop
    end.
Proof.
  revert w. induction first as [|a first IH]; intros w; cbn [app process_sources].
  - done.
  - destruct (load_and_transform_data env a cey w) as [w1 [s|e]]; [| done].
    destruct (combine_ttl_files a w1) as [w2 [[]|e]]; [apply IH | done].
Qed.

Lemma load_and_transform_data_outputs (env : environment) source_name cey w w' r :
  load_and_transform_data env source_name cey w = (w', r) →
  processed w' = processed w ∧ transformed w' = transformed w
  ∧ printed w' = printed w.
Proof.
  unfold load_and_transform_data.
  destruct (processed w !! source_name) as [chunks|]; [| by intros [= <- <-]].
  destruct (mappings env !! source_name) as [m|]; [| by intros [= <- <-]].
  destruct (transform_chunks _ _ _ _ _ _ _ _ _) as [dir r'].
  by intros [= <- <-].
Qed.

(** C5, as the code has it: when the merge of a source meets a chunk file
    that cannot be read, [combine_ttl_files] raises and nothing catches it.
    Whatever the world [w0] in which the loop of [main] reaches the
    source, the exception leaves the loop; the world is the one that
    [load_and_transform_data] left for that source (no output written for
    it, no intermediate file deleted, no summary printed, the transformed
    directory as it was in [w0]), and the sources after it are not
    processed.  Within one run the source is the first one: the chunk
    file was in the intermediate directory before the run, see
    [later_merges_read_their_own_files]. *)
Theorem merge_failure_stops_the_run (env : environment) (cey : Z)
    (later : list string) (source_name : string)
    (w0 w1 : world) (s : summary) (name : string) (read : graph) :
  load_and_transform_data env source_name cey w0 = (w1, Ret s) →
  is_chunk_file name = true →
  intermediate w1 !! name = Some (Unreadable read) →
  combine_ttl_files source_name w1 = (w1, Raise OtherError)
  ∧ process_sources env cey (source_name :: later) w0 = (w1, Raise OtherError)
  ∧ (find_common_earliest_year env w0 (source_name :: later) = Some cey →
     main env (source_name :: later) w0 = (w1, Raise OtherError))
  ∧ transformed w1 = transformed w0
  ∧ printed w1 = printed w0
  ∧ processed w1 = processed w0.
Proof.
  intros Hload Hname Hfile.
  pose proof (combine_ttl_files_unreadable source_name w1 name read Hname Hfile)
    as Hcombine.
  assert (process_sources env cey (source_name :: later) w0
          = (w1, Raise OtherError)) as Hrun.
  { cbn [process_sources]. by rewrite Hload, Hcombine. }
  apply load_and_transform_data_outputs in Hload as (Hpr & Ht & Hp).
  split; [done |]. split; [done |]. split; [| done].
  intros Hcey. unfold main. by rewrite Hcey.
Qed.

Lemma merge_failure_stops_the_run_witness :
  ∃ w1,
    main rates_env ["national_rates"; "regional_rates"] half_done_world
      = (w1, Raise OtherError)
    ∧ transformed w1 = transformed half_done_world
    ∧ is_Some (transformed w1 !! "school_count")
    ∧ transformed w1 !! "national_rates" = None
    ∧ printed w1 = printed half_done_world.
Proof.
  set (run := load_and_transform_data rates_env "national_rates" 2019
                half_done_world).
  assert (∃ s, run.2 = Ret s) as [s Hs]
    by (vm_compute; eexists; reflexivity).
  assert (intermediate (run.1) !! "transformed_data_chunk_7.ttl"
          = Some (Unreadable ∅)) as Hfile by (vm_compute; reflexivity).
  assert (run = (run.1, Ret s)) as Hload
    by (destruct run as [w1 r]; cbn in Hs; by rewrite Hs).
  destruct (merge_failure_stops_the_run rates_env 2019
              ["regional_rates"] "national_rates" half_done_world (run.1)
              s "transformed_data_chunk_7.ttl" ∅ Hload eq_refl Hfile)
    as (_ & _ & Hmain & Ht & Hp & _).
  exists (run.1). split; [apply Hmain; vm_compute; reflexivity |].
  split; [exact Ht |]. rewrite Ht. split; [| split; [| exact Hp]].
  - eexists. reflexivity.
  - reflexivity.
Defined.

(** C5 as stated fails: with an unreadable chunk file in the intermediate
    directory the merge of the first source raises, the exception leaves
    [main], and the second source gets no output. *)
Lemma merge_failure_reaches_main :
  let run := main rates_env ["national_rates"; "regional_rates"] stale_world in
  run.2 = Raise OtherError
  ∧ transformed (run.1) !! "regional_rates" = None
  ∧ printed (run.1) = [].
Proof. vm_compute. repeat split. Qed.

(** * Further properties of the code *)

(** ** Time entities *)

(** The kind of time entity that a normalised text of a given length gets. *)
Lemma map_date_to_ontology_cases (p : string) (g : graph) (cey : Z) :
  (map_date_to_ontology p g cey = (None, g))
  ∨ ∃ y kind,
      year_of p = Ret y ∧ cey ≤ y
      ∧ ((String.length p = 4%nat ∧ kind = "Year")
         ∨ (String.length p = 7%nat ∧ kind = "YearMonth")
         ∨ (String.length p = 10%nat ∧ kind = "FullDate")
         ∨ (String.length p = 9%nat ∧ kind = "AcademicYear"
            ∧ ∃ a b, Py.split_on "-" p = [a; b]))
      ∧ (map_date_to_ontology p g cey).1 = Some (time_entity kind p).
Proof.
  unfold map_date_to_ontology, map_date_body.
  destruct (String.eqb p ""); [by left |].
  destruct (year_of p) as [y|e] eqn:Hy; cbn [mbind outcome_bind]; [| by left].
  destruct (y <? cey) eqn:Hlt; [by left |].
  assert (cey ≤ y) by lia.
  destruct (String.length p) as [|[|[|[|[|[|[|[|[|[|[|n]]]]]]]]]]] eqn:Hlen;
    cbn; try (by left).
  - right. exists y, "Year". eauto 10.
  - right. exists y, "YearMonth". eauto 10.
  - destruct (Py.split_on "-" p) as [|a [|b [|? ?]]] eqn:Hs; try (by left).
    right. exists y, "AcademicYear". repeat split; eauto 10.
  - right. exists y, "FullDate". eauto 10.
Qed.

(** X1: [map_date_to_ontology] answers with a node exactly when the text
    starts with an integer year that is not before the watermark and is
    4, 7 or 10 characters long, or 9 long with exactly one dash; the node
    is then the URI of that granularity followed by the text.  In every
    other case, an exception of its body included, it answers [None]. *)
Theorem map_date_to_ontology_some_iff (p : string) (g : graph) (cey : Z)
    (u : term) :
  (map_date_to_ontology p g cey).1 = Some u ↔
  ∃ y kind,
    year_of p = Ret y ∧ cey ≤ y
    ∧ ((String.length p = 4%nat ∧ kind = "Year")
       ∨ (String.length p = 7%nat ∧ kind = "YearMonth")
       ∨ (String.length p = 10%nat ∧ kind = "FullDate")
       ∨ (String.length p = 9%nat ∧ kind = "AcademicYear"
          ∧ ∃ a b, Py.split_on "-" p = [a; b]))
    ∧ u = time_entity kind p.
Proof.
  split.
  - intros Hu.
    destruct (map_date_to_ontology_cases p g cey)
      as [Hnone | (y & kind & Hy & Hle & Hk & Hsome)].
    + by rewrite Hnone in Hu.
    + exists y, kind. repeat split; try done. congruence.
  - intros (y & kind & Hy & Hle & Hk & ->).
    pose proof (map_date_to_ontology_by_length p g cey y Hy Hle) as Hlen.
    destruct Hk as [[Hl ->] | [[Hl ->] | [[Hl ->] | (Hl & -> & a & b & Hs)]]];
      rewrite Hl in Hlen; try done.
    by rewrite Hs in Hlen.
Qed.

(** X2: a call that answers [None] leaves the graph as it was; a call that
    answers with a node keeps every triple of the graph and adds only
    triples whose subject is that node, the [rdf:type] triple among them. *)
Theorem map_date_to_ontology_graph (p : string) (g : graph) (cey : Z) :
  match map_date_to_ontology p g cey with
  | (None, g') => g' = g
  | (Some u, g') =>
      g ⊆ g'
      ∧ (∀ t, t ∈ g' → t ∈ g ∨ t.1.1 = u)
      ∧ ∃ c, (u, RDF_type, c) ∈ g'
  end.
Proof.
  unfold map_date_to_ontology, map_date_body.
  destruct (String.eqb p ""); [done |].
  destruct (year_of p) as [y|e]; cbn [mbind outcome_bind]; [| done].
  destruct (y <? cey); [done |].
  destruct (String.length p) as [|[|[|[|[|[|[|[|[|[|[|n]]]]]]]]]]]; cbn; try done;
    try (destruct (Py.split_on "-" p) as [|a [|b [|? ?]]]; try done);
    unfold add; (split; [set_solver | split; [set_solver |]]);
    eexists;
    repeat first
      [ (apply elem_of_union_l, elem_of_singleton; reflexivity)
      | apply elem_of_union_r ].
Qed.

(** X3: the time entity of a date is shared.  Mapping the same text again
    into the graph that the first call left gives the same node and
    changes nothing. *)
Theorem map_date_to_ontology_twice (p : string) (g : graph) (cey : Z) :
  map_date_to_ontology p (map_date_to_ontology p g cey).2 cey
  = map_date_to_ontology p g cey.
Proof.
  unfold map_date_to_ontology, map_date_body.
  destruct (String.eqb p ""); [done |].
  destruct (year_of p) as [y|e]; cbn [mbind outcome_bind]; [| done].
  destruct (y <? cey); [done |].
  destruct (String.length p) as [|[|[|[|[|[|[|[|[|[|[|n]]]]]]]]]]]; cbn; try done;
    try (destruct (Py.split_on "-" p) as [|a [|b [|? ?]]]; try done);
    unfold add; f_equal; set_solver.
Qed.

(** ** What a row leaves in the summary *)

Lemma date_step_trace (env : environment) m details entity value cey g s :
  match date_step env m details entity value cey g s with
  | (_, s', Continue) => s' = s
  | (_, s', Return ok) => ok = false ∧ s' = add_skipped_date value s
  | (_, s', Throw _) => s' = s
  end.
Proof.
  unfold date_step.
  destruct (parse_date env value (date_format m)) as [[p|]|e]; try done.
  destruct (String.eqb p ""); [done |].
  destruct (year_of p) as [y|e]; [| done].
  destruct (cey <=? y); [| done].
  by destruct (map_date_to_ontology p g cey) as [[u|] g'].
Qed.

Lemma process_field_trace (env : environment) r m entity cey field details g s :
  match process_field env r m entity cey field details g s with
  | (_, s', Continue) => s' = s
  | (_, s', Return ok) =>
      ok = false
      ∧ ((∃ e, s' = add_error e s) ∨ (∃ v, s' = add_skipped_date v s))
  | (_, s', Throw _) => s' = s
  end.
Proof.
  unfold process_field.
  destruct (get field r) as [original_value|]; [| done].
  destruct (isna original_value); [done |].
  destruct (match valid_values details with
            | Some vs => negb (cell_in original_value vs)
            | None => false
            end); [split; [done | left; eauto] |].
  destruct (match mapping details with
            | Some d => Str <$> cell_lookup original_value d
            | None => Some original_value
            end) as [value|]; [| split; [done | left; eauto]].
  destruct (String.eqb field "date").
  - pose proof (date_step_trace env m details entity value cey g s) as H.
    destruct (date_step env m details entity value cey g s) as [[g' s'] []];
      [done | | done].
    destruct H as [-> ->]. split; [done | right; eauto].
  - destruct (bool_decide (object details = Some true)); [| done].
    destruct (sanitize_uri (str value)); [| done].
    by destruct (related_class details).
Qed.

Lemma process_fields_trace (env : environment) r m entity cey fs :
  ∀ g s,
    match process_fields env r m entity cey fs g s with
    | (_, s', Continue) => s' = s
    | (_, s', Return ok) =>
        ok = false
        ∧ ((∃ e, s' = add_error e s) ∨ (∃ v, s' = add_skipped_date v s))
    | (_, s', Throw _) => s' = s
    end.
Proof.
  induction fs as [|[field details] fs IH]; intros g s; cbn [process_fields].
  - done.
  - pose proof (process_field_trace env r m entity cey field details g s) as H.
    destruct (process_field env r m entity cey field details g s)
      as [[g1 s1] []]; [| done | done].
    subst s1. apply IH.
Qed.

Lemma row_trace (env : environment) (r : row)
    (m : source_mapping) (g : graph) (cey : Z) (s : summary) (fresh : string) :
  match transform_row_to_rdf env r m g cey s fresh with
  | (true, _, s') => s' = s
  | (false, _, s') =>
      (∃ e, s' = add_error e s) ∨ (∃ v, s' = add_skipped_date v s)
  end.
Proof.
  unfold transform_row_to_rdf.
  destruct (entity_uri_of r m fresh) as [entity|e]; [| left; eauto].
  pose proof (process_fields_trace env r m entity cey (fields m)
                (add (entity, RDF_type, URIRef (class m)) g) s) as H.
  destruct (process_fields env r m entity cey (fields m)
              (add (entity, RDF_type, URIRef (class m)) g) s) as [[g' s'] [|ok|e]].
  - done.
  - destruct H as [-> H]. done.
  - subst s'. left. eauto.
Qed.

(** X4: a row that succeeds leaves the summary exactly as it was; a row
    that fails leaves exactly one trace, either one more entry at the end
    of [errors] or one value put into [skipped_dates]. *)
Theorem transform_row_to_rdf_trace (env : environment) (r : row)
    (m : source_mapping) (g : graph) (cey : Z) (s : summary) (fresh : string) :
  match transform_row_to_rdf env r m g cey s fresh with
  | (true, _, s') => s' = s
  | (false, _, s') =>
      (∃ e, s' = add_error e s) ∨ (∃ v, s' = add_skipped_date v s)
  end.
Proof. apply row_trace. Qed.

(** X5: a row is not atomic.  When its entity URI cannot be built the
    graph is untouched and the row fails with one error; otherwise the
    [rdf:type] triple of the entity and every triple that was in the graph
    are in the graph afterwards, whether the row succeeds or fails. *)
Theorem transform_row_to_rdf_keeps_triples (env : environment) (r : row)
    (m : source_mapping) (g : graph) (cey : Z) (s : summary) (fresh : string) :
  match entity_uri_of r m fresh with
  | Raise e =>
      transform_row_to_rdf env r m g cey s fresh
      = (false, g, add_error (Exception e) s)
  | Ret entity =>
      (entity, RDF_type, URIRef (class m))
        ∈ (transform_row_to_rdf env r m g cey s fresh).1.2
      ∧ g ⊆ (transform_row_to_rdf env r m g cey s fresh).1.2
  end.
Proof.
  unfold transform_row_to_rdf.
  destruct (entity_uri_of r m fresh) as [entity|e]; [| done].
  destruct (process_fields env r m entity cey (fields m)
              (add (entity, RDF_type, URIRef (class m)) g) s)
    as [[g' s'] sig] eqn:H.
  apply process_fields_inv in H as (Hsub & _ & _).
  assert (g' = (match sig with
                | Continue => (true, g', s')
                | Return ok => (ok, g', s')
                | Throw e => (false, g', add_error (Exception e) s')
                end).1.2) as <- by (by destruct sig).
  split.
  - apply Hsub, elem_of_add.
  - etrans; [apply add_subseteq | done].
Qed.

(** ** One field of a row *)

(** The row as seen from one of its fields: the fields before it passed. *)
Lemma transform_row_at_field (env : environment) r m g cey s fresh
    before field details after entity g1 s1 :
  fields m = (before ++ (field, details) :: after)%list →
  entity_uri_of r m fresh = Ret entity →
  process_fields env r m entity cey before
    (add (entity, RDF_type, URIRef (class m)) g) s = (g1, s1, Continue) →
  transform_row_to_rdf env r m g cey s fresh
  = match process_field env r m entity cey field details g1 s1 with
    | (g2, s2, Continue) =>
        match process_fields env r m entity cey after g2 s2 with
        | (g', s', Continue) => (true, g', s')
        | (g', s', Return ok) => (ok, g', s')
        | (g', s', Throw e) => (false, g', add_error (Exception e) s')
        end
    | (g2, s2, Return ok) => (ok, g2, s2)
    | (g2, s2, Throw e) => (false, g2, add_error (Exception e) s2)
    end.
Proof.
  intros Hfields Hent Hbefore. unfold transform_row_to_rdf.
  rewrite Hent, Hfields, process_fields_app, Hbefore. cbn [process_fields].
  by destruct (process_field env r m entity cey field details g1 s1)
    as [[g2 s2] []].
Qed.

(** X6: field validation.  For a field that the row reaches with a
    non-null value: if the field has a list of valid values and the value
    is not in it, the row fails with the message that names the value and
    the field, before any value mapping is looked at; if the value passes
    and the field has a value mapping without that key, the row fails with
    the message of the missing mapping.  In both cases the field adds no
    triple: the graph is the one the earlier fields left. *)
Theorem invalid_or_unmapped_value_fails (env : environment) (r : row)
    (m : source_mapping) (g : graph) (cey : Z) (s : summary) (fresh : string)
    (before after : list (string * field_details)) (field : string)
    (details : field_details) (v : cell) (entity : term)
    (g1 : graph) (s1 : summary) :
  fields m = (before ++ (field, details) :: after)%list →
  entity_uri_of r m fresh = Ret entity →
  process_fields env r m entity cey before
    (add (entity, RDF_type, URIRef (class m)) g) s = (g1, s1, Continue) →
  get field r = Some v → isna v = false →
  (∀ vs, valid_values details = Some vs → cell_in v vs = false →
         transform_row_to_rdf env r m g cey s fresh
         = (false, g1,
            add_error
              (Message ("Invalid value '" ++ str v ++ "' for field '" ++ field ++ "'"))
              s1))
  ∧ (∀ d, match valid_values details with
          | Some vs => cell_in v vs = true
          | None => True
          end →
          mapping details = Some d → cell_lookup v d = None →
          transform_row_to_rdf env r m g cey s fresh
          = (false, g1,
             add_error
               (Message ("No mapping found for value '" ++ str v
                         ++ "' in field '" ++ field ++ "'"))
               s1)).
Proof.
  intros Hfields Hent Hbefore Hget Hna.
  rewrite (transform_row_at_field env r m g cey s fresh before field details
             after entity g1 s1 Hfields Hent Hbefore).
  unfold process_field. rewrite Hget, Hna. split.
  - intros vs Hvs Hin. by rewrite Hvs, Hin.
  - intros d Hvalid Hd Hlook. rewrite Hd, Hlook.
    destruct (valid_values details) as [vs|]; [by rewrite Hvalid | done].
Qed.

Lemma invalid_or_unmapped_value_fails_witness :
  ∃ g1,
    transform_row_to_rdf (example_env [] ∅)
      [("transaction_id", Str "{A-1}"); ("price", Num 250000);
       ("property_type", Str "x")]
      price_paid ∅ 2000 new_summary ""
    = (false, g1,
       add_error (Message "Invalid value 'x' for field 'property_type'")
         new_summary).
Proof.
  set (r := [("transaction_id", Str "{A-1}"); ("price", Num 250000);
             ("property_type", Str "x")]).
  set (entity := URIRef "http://example.org/property#Property/A-1").
  set (res := process_fields (example_env [] ∅) r price_paid entity 2000
                (take 4 (fields price_paid))
                (add (entity, RDF_type, URIRef (class price_paid)) ∅)
                new_summary).
  assert (res.2 = Continue) as Hsig by (vm_compute; reflexivity).
  assert (res.1.2 = new_summary) as Hsum by (vm_compute; reflexivity).
  assert (res = (res.1.1, new_summary, Continue)) as Hres
    by (destruct res as [[g1 s1] sig]; cbn in Hsig, Hsum; by rewrite Hsig, Hsum).
  exists (res.1.1).
  exact (proj1
    (invalid_or_unmapped_value_fails (example_env [] ∅) r price_paid ∅ 2000
       new_summary "" (take 4 (fields price_paid)) (drop 5 (fields price_paid))
       "property_type"
       (coded_field (ns "prop" "propertyType") (XSD "string")
          [("d", "detached"); ("s", "semi-detached"); ("t", "terraced");
           ("f", "flats/maisonettes"); ("o", "other")])
       (Str "x") entity (res.1.1) new_summary
       eq_refl eq_refl Hres eq_refl eq_refl)
    ["d"; "s"; "t"; "f"; "o"] eq_refl eq_refl).
Defined.

Lemma sanitize_uri_returns (value : string) :
  value ≠ "" → ∃ segment, sanitize_uri value = Ret segment.
Proof.
  intros Hne. destruct value as [|c rest]; [done |].
  unfold sanitize_uri. cbn [re_sub_non_word]. eauto.
Qed.

(** X7: a relationship field.  For a field declared as an object property
    (with the class of the related entity, no value list and no value
    mapping) that the row reaches with a non-null value: the empty text
    makes [sanitize_uri] raise, the handler of the row catches it and the
    row fails with that exception in [errors]; any other text is sanitised
    into a URI segment, and the link to the related entity and the type of
    the related entity are in the graph when the row ends. *)
Theorem relationship_field_outcome (env : environment) (r : row)
    (m : source_mapping) (g : graph) (cey : Z) (s : summary) (fresh : string)
    (before after : list (string * field_details)) (field : string)
    (details : field_details) (v : cell) (cls : string) (entity : term)
    (g1 : graph) (s1 : summary) :
  fields m = (before ++ (field, details) :: after)%list →
  entity_uri_of r m fresh = Ret entity →
  process_fields env r m entity cey before
    (add (entity, RDF_type, URIRef (class m)) g) s = (g1, s1, Continue) →
  get field r = Some v → isna v = false →
  field ≠ "date" →
  valid_values details = None → mapping details = None →
  object details = Some true → related_class details = Some cls →
  (str v = "" →
   transform_row_to_rdf env r m g cey s fresh
   = (false, g1, add_error (Exception IndexError) s1))
  ∧ (str v ≠ "" →
     ∃ segment,
       sanitize_uri (str v) = Ret segment
       ∧ (entity, URIRef (property details), URIRef (cls ++ "/" ++ segment))
           ∈ (transform_row_to_rdf env r m g cey s fresh).1.2
       ∧ (URIRef (cls ++ "/" ++ segment), RDF_type, URIRef cls)
           ∈ (transform_row_to_rdf env r m g cey s fresh).1.2).
Proof.
  intros Hfields Hent Hbefore Hget Hna Hfield Hv Hm Hobj Hcls.
  rewrite (transform_row_at_field env r m g cey s fresh before field details
             after entity g1 s1 Hfields Hent Hbefore).
  unfold process_field. rewrite Hget, Hna, Hv, Hm, Hobj, Hcls.
  assert (String.eqb field "date" = false) as -> by (by apply String.eqb_neq).
  rewrite bool_decide_eq_true_2 by done. split.
  - intros ->. reflexivity.
  - intros Hne.
    destruct (sanitize_uri_returns (str v) Hne) as (segment & Hseg).
    exists segment. rewrite Hseg. split; [done |].
    set (link := (entity, URIRef (property details), URIRef (cls ++ "/" ++ segment))).
    set (typed := (URIRef (cls ++ "/" ++ segment), RDF_type, URIRef cls)).
    destruct (process_fields env r m entity cey after
                (add typed (add link g1)) s1) as [[g' s'] sig] eqn:Hafter.
    apply process_fields_inv in Hafter as (Hsub & _ & _).
    assert (g' = (match sig with
                  | Continue => (true, g', s')
                  | Return ok => (ok, g', s')
                  | Throw e => (false, g', add_error (Exception e) s')
                  end).1.2) as <- by (by destruct sig).
    split; apply Hsub.
    + apply add_subseteq, elem_of_add.
    + apply elem_of_add.
Qed.

Lemma relationship_field_outcome_witness :
  ∃ g1,
    transform_row_to_rdf (example_env [] ∅)
      [("transaction_id", Str "{A-1}"); ("location_name", Str "")]
      price_paid ∅ 2000 new_summary ""
    = (false, g1, add_error (Exception IndexError) new_summary).
Proof.
  set (r := [("transaction_id", Str "{A-1}"); ("location_name", Str "")]).
  set (entity := URIRef "http://example.org/property#Property/A-1").
  set (res := process_fields (example_env [] ∅) r price_paid entity 2000
                (take 11 (fields price_paid))
                (add (entity, RDF_type, URIRef (class price_paid)) ∅)
                new_summary).
  assert (res.2 = Continue) as Hsig by (vm_compute; reflexivity).
  assert (res.1.2 = new_summary) as Hsum by (vm_compute; reflexivity).
  assert (res = (res.1.1, new_summary, Continue)) as Hres
    by (destruct res as [[g1 s1] sig]; cbn in Hsig, Hsum; by rewrite Hsig, Hsum).
  exists (res.1.1).
  refine (proj1
    (relationship_field_outcome (example_env [] ∅) r price_paid ∅ 2000
       new_summary "" (take 11 (fields price_paid)) [] "location_name"
       {| property := ns "prop" "hasLocation"; datatype := None;
          mapping := None; valid_values := None; object := Some true;
          related_class := Some (ns "loc" "Location") |}
       (Str "") (ns "loc" "Location") entity (res.1.1) new_summary
       eq_refl eq_refl Hres eq_refl eq_refl _ eq_refl eq_refl eq_refl eq_refl)
    eq_refl).
  discriminate.
Defined.

(** ** The URI template *)

Lemma format_outcome (pattern : list piece) (key value : string) :
  (∃ name, Field name ∈ pattern ∧ name ≠ key) ∧ format pattern key value = Raise KeyError
  ∨ (∀ name, Field name ∈ pattern → name = key) ∧ ∃ u, format pattern key value = Ret u.
Proof.
  induction pattern as [|[text|name] rest IH]; cbn [format].
  - right. split; [by intros name ?%elem_of_nil | eauto].
  - destruct IH as [[(name & Hin & Hne) ->] | [Hall [u ->]]].
    + left. split; [| done]. exists name. split; [by right | done].
    + right. split; [| cbn; eauto].
      intros name [? | Hin]%elem_of_cons; [done | by apply Hall].
  - destruct (String.eqb name key) eqn:Hk.
    + apply String.eqb_eq in Hk as ->.
      destruct IH as [[(name & Hin & Hne) ->] | [Hall [u ->]]].
      * left. split; [| done]. exists name. split; [by right | done].
      * right. split; [| cbn; eauto].
        intros name [[= ->] | Hin]%elem_of_cons; [done | by apply Hall].
    + apply String.eqb_neq in Hk. left. split; [| done].
      exists name. split; [by left | done].
Qed.

(** X8: the keyword handed to the URI template follows the row, not the
    mapping: [transaction_id] when the row has that column, [unique_id]
    when it has not.  A template with a field of another name makes
    [format] raise [KeyError]: the row fails with that one error and the
    graph is untouched.  A template whose fields all bear the keyword
    always gives a URI. *)
Theorem template_keyword_follows_row (env : environment) (r : row)
    (m : source_mapping) (g : graph) (cey : Z) (s : summary) (fresh : string) :
  let key := if bool_decide (is_Some (get "transaction_id" r))
             then "transaction_id" else "unique_id" in
  ((∃ name, Field name ∈ uri_pattern m ∧ name ≠ key) →
   transform_row_to_rdf env r m g cey s fresh
   = (false, g, add_error (Exception KeyError) s))
  ∧ ((∀ name, Field name ∈ uri_pattern m → name = key) →
     ∃ entity, entity_uri_of r m fresh = Ret entity).
Proof.
  intros key. unfold transform_row_to_rdf, entity_uri_of. subst key.
  destruct (get "transaction_id" r) as [id|]; cbn [bool_decide decide_rel];
    [rewrite bool_decide_eq_true_2 by eauto
    | rewrite bool_decide_eq_false_2 by (by intros [? ?])].
  - destruct (format_outcome (uri_pattern m) "transaction_id"
                (Py.remove_char "}" (Py.remove_char "{" (str id))))
      as [[Hbad ->] | [Hall [u ->]]]; cbn.
    + split; [done |]. intros Hall. destruct Hbad as (name & Hin & Hne).
      by destruct Hne; apply Hall.
    + split; [| eauto]. intros (name & Hin & Hne). by destruct Hne; apply Hall.
  - destruct (format_outcome (uri_pattern m) "unique_id"
                (generate_unique_identifier fresh
                   (List.last (Py.split_on "#" (class m)) "")))
      as [[Hbad ->] | [Hall [u ->]]]; cbn.
    + split; [done |]. intros Hall. destruct Hbad as (name & Hin & Hne).
      by destruct Hne; apply Hall.
    + split; [| eauto]. intros (name & Hin & Hne). by destruct Hne; apply Hall.
Qed.

Lemma template_keyword_follows_row_witness :
  transform_row_to_rdf (example_env [] ∅)
    [("transaction_id", Str "7"); ("date", Str "2019-20")]
    school_count ∅ 2000 new_summary "f"
  = (false, ∅, add_error (Exception KeyError) new_summary).
Proof.
  apply (proj1 (template_keyword_follows_row (example_env [] ∅)
                  [("transaction_id", Str "7"); ("date", Str "2019-20")]
                  school_count ∅ 2000 new_summary "f")).
  exists "unique_id". split; [| discriminate].
  cbn. apply list_elem_of_further, list_elem_of_here.
Defined.

(** ** The counts of a source *)

Lemma size_add_skipped (v : cell) (X : gset cell) :
  (size ({[ v ]} ∪ X) ≤ S (size X))%nat.
Proof.
  rewrite size_union_alt, size_singleton.
  pose proof (subseteq_size (X ∖ {[ v ]}) X) as H.
  assert (X ∖ {[ v ]} ⊆ X) as Hsub by apply subseteq_difference_l, reflexivity.
  specialize (H Hsub). lia.
Qed.

Lemma transform_rows_accounted (env : environment) source m cey rows :
  ∀ g s, accounted s →
         accounted (transform_rows env source m cey rows g s).2.
Proof.
  induction rows as [|r rows IH]; intros g s Hs; cbn [transform_rows]; [done |].
  pose proof (row_trace env r m g cey (incr_total_rows s)
                (uuid4 env source (total_rows s))) as Ht.
  destruct (transform_row_to_rdf env r m g cey (incr_total_rows s)
              (uuid4 env source (total_rows s))) as [[[] g1] s1].
  - subst s1. apply IH. unfold accounted in *. cbn. lia.
  - apply IH. unfold accounted in *.
    destruct Ht as [[e ->] | [v ->]]; cbn.
    + rewrite List.length_app. cbn. lia.
    + pose proof (size_add_skipped v (skipped_dates s)). lia.
Qed.

Lemma transform_chunks_accounted (env : environment) source m cey hl chunks :
  ∀ n s dir dir' s',
    accounted s →
    transform_chunks env source m cey hl n chunks s dir = (dir', Ret s') →
    accounted s'.
Proof.
  induction chunks as [|c chunks IH]; intros n s dir dir' s' Hs H;
    cbn [transform_chunks] in H.
  - by simplify_eq.
  - destruct c as [|r c]; [by eapply IH |].
    destruct (prepare_chunk env hl (r :: c)) as [[rows|]|e]; [| by eapply IH | done].
    pose proof (transform_rows_accounted env source m cey rows ∅ s Hs) as Hr.
    destruct (transform_rows env source m cey rows ∅ s) as [g1 s1].
    by eapply IH.
Qed.

(** X9: the counts add up.  When [load_and_transform_data] returns for a
    source that has a mapping, every counted row is accounted for: the
    mapped rows, the entries of [errors] and the distinct skipped dates
    together are at most [total_rows] (several rows that skip the same
    date leave one entry), and so [mapped_rows] never exceeds
    [total_rows]. *)
Theorem summary_counts_add_up (env : environment) (source_name : string)
    (cey : Z) (w w' : world) (s : summary) :
  is_Some (mappings env !! source_name) →
  load_and_transform_data env source_name cey w = (w', Ret s) →
  (mapped_rows s + length (errors s) + size (skipped_dates s) ≤ total_rows s)%nat
  ∧ (mapped_rows s ≤ total_rows s)%nat.
Proof.
  intros [m Hm]. unfold load_and_transform_data. rewrite Hm.
  destruct (processed w !! source_name) as [chunks|]; [| done].
  destruct (transform_chunks env source_name m cey
              (bool_decide ("location_name" ∈ (fields m).*1)) 0 chunks
              new_summary (intermediate w)) as [dir r] eqn:H.
  intros [= <- ->].
  assert (accounted s) as Hs.
  { eapply transform_chunks_accounted; [| exact H].
    unfold accounted. cbn. rewrite size_empty. lia. }
  unfold accounted in Hs. lia.
Qed.

Lemma summary_counts_add_up_witness :
  ∃ w' s,
    load_and_transform_data rates_env "national_rates" 2000 quarterly_world
      = (w', Ret s)
    ∧ (mapped_rows s + length (errors s) + size (skipped_dates s)
       ≤ total_rows s)%nat
    ∧ (mapped_rows s ≤ total_rows s)%nat
    ∧ total_rows s = 4%nat.
Proof.
  set (run := load_and_transform_data rates_env "national_rates" 2000
                quarterly_world).
  assert (∃ s, run.2 = Ret s ∧ total_rows s = 4%nat) as (s & Hs & Ht)
    by (vm_compute; eexists; split; reflexivity).
  assert (run = (run.1, Ret s)) as Hrun
    by (destruct run as [w1 r]; cbn in Hs; by rewrite Hs).
  exists (run.1), s. split; [exact Hrun |].
  destruct (summary_counts_add_up rates_env "national_rates" 2000
              quarterly_world (run.1) s (ex_intro _ quarterly eq_refl) Hrun)
    as [H1 H2].
  split; [exact H1 |]. split; [exact H2 | exact Ht].
Defined.

(** ** The files of a source *)

Lemma transform_chunks_files (env : environment) source m cey hl chunks :
  ∀ n s dir dir' r,
    transform_chunks env source m cey hl n chunks s dir = (dir', r) →
    ∀ name,
      ((∀ k, (n ≤ k < n + length chunks)%nat → name ≠ chunk_file_name k) →
       dir' !! name = dir !! name)
      ∧ (dir' !! name = dir !! name ∨ ∃ g, dir' !! name = Some (Turtle g)).
Proof.
  induction chunks as [|c chunks IH]; intros n s dir dir' r H name;
    cbn [transform_chunks] in H.
  - simplify_eq. split; [done | by left].
  - assert (∀ s1 dir1,
              transform_chunks env source m cey hl (S n) chunks s1 dir1 = (dir', r) →
              dir1 = dir ∨ (∃ g, dir1 = <[chunk_file_name n := Turtle g]> dir) →
              ((∀ k, (n ≤ k < n + length (c :: chunks))%nat →
                     name ≠ chunk_file_name k) →
               dir' !! name = dir !! name)
              ∧ (dir' !! name = dir !! name ∨ ∃ g, dir' !! name = Some (Turtle g)))
      as Hstep.
    { intros s1 dir1 H1 Hdir1.
      destruct (IH (S n) s1 dir1 dir' r H1 name) as [Hother Hfile].
      cbn [length]. split.
      - intros Hname. rewrite Hother.
        + destruct Hdir1 as [-> | [g ->]]; [done |].
          apply lookup_insert_ne. intros Heq. apply (Hname n); [lia | done].
        + intros k Hk. apply Hname. lia.
      - destruct Hfile as [Hsame | Hturtle]; [| by right].
        rewrite Hsame. destruct Hdir1 as [-> | [g ->]]; [by left |].
        destruct (decide (chunk_file_name n = name)) as [<- | Hne].
        + right. exists g. apply lookup_insert_eq.
        + left. by apply lookup_insert_ne. }
    destruct c as [|r0 c]; [by eapply Hstep; eauto |].
    destruct (prepare_chunk env hl (r0 :: c)) as [[rows|]|e].
    + destruct (transform_rows env source m cey rows ∅ s) as [g1 s1].
      eapply Hstep; eauto.
    + eapply Hstep; eauto.
    + simplify_eq. split; [done | by left].
Qed.

(** X10: what [load_and_transform_data] does to the disk, whether it
    returns or raises.  It leaves the processed tables, the transformed
    outputs and the printed summaries alone; in the intermediate directory
    it touches no file but those named after the chunk numbers of its
    table, and a file it leaves changed holds a readable graph: it never
    deletes a file.  A source absent from the registry changes nothing and
    its summary holds that one error. *)
Theorem load_and_transform_data_files (env : environment)
    (source_name : string) (cey : Z) (w : world) :
  let result := load_and_transform_data env source_name cey w in
  processed (result.1) = processed w
  ∧ transformed (result.1) = transformed w
  ∧ printed (result.1) = printed w
  ∧ (∀ name,
       (∀ k, (k < length (default [] (processed w !! source_name)))%nat →
             name ≠ chunk_file_name k) →
       intermediate (result.1) !! name = intermediate w !! name)
  ∧ (∀ name,
       intermediate (result.1) !! name = intermediate w !! name
       ∨ ∃ g, intermediate (result.1) !! name = Some (Turtle g))
  ∧ (is_Some (processed w !! source_name) →
     mappings env !! source_name = None →
     ∃ e, result = (w, Ret (add_error e new_summary))).
Proof.
  intros result.
  destruct (load_and_transform_data_outputs env source_name cey w (result.1)
              (result.2)) as (Hp & Ht & Hpr); [apply surjective_pairing |].
  split; [done |]. split; [done |]. split; [done |].
  subst result. unfold load_and_transform_data.
  destruct (processed w !! source_name) as [chunks|]; cbn [default].
  2: { cbn. split; [done |]. split; [by left |]. by intros [? ?]. }
  destruct (mappings env !! source_name) as [m|].
  2: { cbn. split; [done |]. split; [by left |]. eauto. }
  destruct (transform_chunks env source_name m cey
              (bool_decide ("location_name" ∈ (fields m).*1)) 0 chunks
              new_summary (intermediate w)) as [dir r] eqn:H.
  cbn. split; [| split; [| done]].
  - intros name Hname.
    apply (transform_chunks_files _ _ _ _ _ _ _ _ _ _ _ H name).
    intros k Hk. apply Hname. lia.
  - intros name. apply (transform_chunks_files _ _ _ _ _ _ _ _ _ _ _ H name).
Qed.

(** ** The merge of a source *)

Lemma string_app_assoc (a b c : string) : (a ++ b) ++ c = a ++ (b ++ c).
Proof.
  induction a as [|x a IH]; [done |].
  change (String x ((a ++ b) ++ c) = String x (a ++ (b ++ c))). by rewrite IH.
Qed.

Lemma is_chunk_file_name (k : nat) : is_chunk_file (chunk_file_name k) = true.
Proof.
  unfold is_chunk_file, chunk_file_name.
  rewrite !andb_true_iff. split; [split |].
  - apply startswith_spec. eauto.
  - apply endswith_spec. exists ("transformed_data_chunk_" ++ pretty k).
    by rewrite string_app_assoc.
  - apply Nat.leb_le. rewrite !length_app. cbn. lia.
Qed.

Lemma combine_readable (files : list file) (g0 : graph) :
  (∀ f, f ∈ files → ∃ g, f = Turtle g) →
  ∃ G, combine files g0 = Ret G
       ∧ ∀ t, t ∈ G ↔ t ∈ g0 ∨ ∃ g, Turtle g ∈ files ∧ t ∈ g.
Proof.
  revert g0. induction files as [|f files IH]; intros g0 Hall.
  - exists g0. split; [done |]. intros t. split; [by left |].
    intros [? | (g & []%elem_of_nil & _)]. done.
  - destruct (Hall f) as [g ->]; [by left |].
    destruct (IH (g0 ∪ g)) as (G & HG & Hiff).
    { intros f Hf. apply Hall. by right. }
    exists G. cbn [combine]. rewrite parse_turtle. cbn. split; [done |].
    intros t. rewrite Hiff, elem_of_union. split.
    + intros [[? | ?] | (g' & Hin & Ht)].
      * by left.
      * right. exists g. split; [by left | done].
      * right. exists g'. split; [by right | done].
    + intros [? | (g' & Hin & Ht)].
      * by left; left.
      * apply elem_of_cons in Hin as [[= ->] | Hin]; [by left; right |].
        right. exists g'. done.
Qed.

Lemma combine_ret_readable (files : list file) (g0 G : graph) :
  combine files g0 = Ret G → ∀ f, f ∈ files → ∃ g, f = Turtle g.
Proof.
  intros H f Hf. destruct f as [g|read]; [eauto |].
  by rewrite (combine_unreadable files g0 read Hf) in H.
Qed.

Lemma lookup_foldr_delete {A : Type} (names : list string) (m : gmap string A)
    (k : string) :
  foldr delete m names !! k = if decide (k ∈ names) then None else m !! k.
Proof.
  induction names as [|n names IH]; cbn [foldr].
  - by rewrite decide_False by apply not_elem_of_nil.
  - destruct (decide (n = k)) as [-> | Hne].
    + rewrite lookup_delete_eq. by rewrite decide_True by left.
    + rewrite lookup_delete_ne by done. rewrite IH.
      destruct (decide (k ∈ names)) as [Hin | Hnin].
      * by rewrite decide_True by (by right).
      * rewrite decide_False; [done |].
        intros [-> | ?]%elem_of_cons; done.
Qed.

(** What a merge that returns has done. *)
Lemma combine_ttl_files_ret (source_name : string) (w w' : world) :
  combine_ttl_files source_name w = (w', Ret ()) →
  ∃ G,
    transformed w' = <[source_name := Turtle G]> (transformed w)
    ∧ (∀ t, t ∈ G ↔
            ∃ name g, intermediate w !! name = Some (Turtle g)
                      ∧ is_chunk_file name = true ∧ t ∈ g)
    ∧ (∀ name, intermediate w' !! name
               = if is_chunk_file name then None else intermediate w !! name)
    ∧ processed w' = processed w
    ∧ printed w' = printed w
    ∧ ∃ name, is_chunk_file name = true ∧ is_Some (intermediate w !! name).
Proof.
  unfold combine_ttl_files.
  destruct (chunk_files (intermediate w)) as [|p files] eqn:Hfiles; [done |].
  rewrite <- Hfiles.
  destruct (combine (chunk_files (intermediate w)).*2 ∅) as [G|e] eqn:HG; [| done].
  intros [= <-]. exists G. cbn.
  destruct (combine_readable (chunk_files (intermediate w)).*2 ∅
              (combine_ret_readable _ _ _ HG)) as (G' & HG' & Hiff).
  rewrite HG in HG'. injection HG' as <-.
  split; [done |]. split; [| split; [| split; [done | split; [done |]]]].
  - intros t. rewrite Hiff. split.
    + intros [[]%elem_of_empty | (g & Hin & Ht)].
      apply list_elem_of_fmap in Hin as ([name f] & Hf & Hin). cbn in Hf. subst f.
      apply elem_of_chunk_files in Hin as [Hl Hc]. eauto.
    + intros (name & g & Hl & Hc & Ht). right. exists g. split; [| done].
      apply (list_elem_of_fmap_2 snd _ (name, Turtle g)).
      by apply elem_of_chunk_files.
  - intros name. rewrite lookup_foldr_delete.
    destruct (is_chunk_file name) eqn:Hc.
    + destruct (intermediate w !! name) as [f|] eqn:Hl.
      * rewrite decide_True; [done |].
        apply (list_elem_of_fmap_2 fst _ (name, f)).
        by apply elem_of_chunk_files.
      * by destruct (decide _).
    + rewrite decide_False; [done |].
      intros ([name' f] & Hn & Hin)%list_elem_of_fmap. cbn in Hn. subst name'.
      apply elem_of_chunk_files in Hin as [_ Hc']. congruence.
  - destruct p as [name f]. exists name.
    assert ((name, f) ∈ chunk_files (intermediate w)) as Hin
      by (rewrite Hfiles; left).
    apply elem_of_chunk_files in Hin as [Hl Hc]. eauto.
Qed.

Lemma combine_ttl_files_empty (source_name : string) (w : world) :
  (∀ name, is_chunk_file name = true → intermediate w !! name = None) →
  combine_ttl_files source_name w = (w, Raise ValueError).
Proof.
  intros Hnone. unfold combine_ttl_files.
  destruct (chunk_files (intermediate w)) as [|[name f] files] eqn:Hfiles; [done |].
  assert ((name, f) ∈ chunk_files (intermediate w)) as Hin
    by (rewrite Hfiles; left).
  apply elem_of_chunk_files in Hin as [Hl Hc].
  by rewrite (Hnone name Hc) in Hl.
Qed.

Lemma combine_ttl_files_readable (source_name : string) (w : world) :
  (∀ name f, intermediate w !! name = Some f → is_chunk_file name = true →
             ∃ g, f = Turtle g) →
  (∃ name, is_chunk_file name = true ∧ is_Some (intermediate w !! name)) →
  ∃ w', combine_ttl_files source_name w = (w', Ret ()).
Proof.
  intros Hread (name & Hc & [f Hf]).
  destruct (combine_ttl_files source_name w) as [w' [[]|e]] eqn:H; [eauto |].
  exfalso. unfold combine_ttl_files in H.
  assert ((name, f) ∈ chunk_files (intermediate w)) as Hin
    by (by apply elem_of_chunk_files).
  destruct (chunk_files (intermediate w)) as [|p files] eqn:Hfiles;
    [by apply elem_of_nil in Hin |].
  rewrite <- Hfiles in *.
  destruct (combine_readable (chunk_files (intermediate w)).*2 ∅)
    as (G & HG & _).
  { intros f' ([name' f''] & Hn & Hin')%list_elem_of_fmap. cbn in Hn. subst f''.
    apply elem_of_chunk_files in Hin' as [Hl' Hc']. eauto. }
  by rewrite HG in H.
Qed.

(** X11: a merge that can read every chunk file of the intermediate
    directory, and finds at least one, returns.  The output written for
    the source holds exactly the triples of those files, whichever run or
    source left them there; every chunk file is deleted and every other
    file of the directory is left alone. *)
Theorem combine_ttl_files_merges_every_chunk_file (source_name : string)
    (w : world) :
  (∀ name f, intermediate w !! name = Some f → is_chunk_file name = true →
             ∃ g, f = Turtle g) →
  (∃ name, is_chunk_file name = true ∧ is_Some (intermediate w !! name)) →
  ∃ w' G,
    combine_ttl_files source_name w = (w', Ret ())
    ∧ transformed w' = <[source_name := Turtle G]> (transformed w)
    ∧ (∀ t, t ∈ G ↔
            ∃ name g, intermediate w !! name = Some (Turtle g)
                      ∧ is_chunk_file name = true ∧ t ∈ g)
    ∧ (∀ name, intermediate w' !! name
               = if is_chunk_file name then None else intermediate w !! name)
    ∧ processed w' = processed w
    ∧ printed w' = printed w.
Proof.
  intros Hread Hsome.
  destruct (combine_ttl_files_readable source_name w Hread Hsome) as [w' H].
  destruct (combine_ttl_files_ret source_name w w' H)
    as (G & Ht & HG & Hi & Hp & Hpr & _).
  exists w', G. done.
Qed.

Lemma combine_ttl_files_merges_every_chunk_file_witness :
  ∃ w' G,
    combine_ttl_files "national_rates" merge_world = (w', Ret ())
    ∧ transformed w' = <["national_rates" := Turtle G]> (transformed merge_world)
    ∧ (∀ t, t ∈ G ↔
            ∃ name g, intermediate merge_world !! name = Some (Turtle g)
                      ∧ is_chunk_file name = true ∧ t ∈ g)
    ∧ (∀ name, intermediate w' !! name
               = if is_chunk_file name then None
                 else intermediate merge_world !! name)
    ∧ processed w' = processed merge_world
    ∧ printed w' = printed merge_world.
Proof.
  apply (combine_ttl_files_merges_every_chunk_file "national_rates" merge_world).
  - intros name f Hf Hc. cbn in Hf.
    apply lookup_insert_Some in Hf as [[<- <-] | [_ Hf]]; [eauto |].
    apply lookup_insert_Some in Hf as [[<- <-] | [_ Hf]]; [eauto |].
    apply lookup_singleton_Some in Hf as [<- <-]. discriminate Hc.
  - exists "transformed_data_chunk_0.ttl". split; [reflexivity |].
    eexists. reflexivity.
Defined.

(** ** What a row adds does not depend on the graph *)

Ltac additive :=
  repeat match goal with |- (_, _) = (_, _) => f_equal end;
  try reflexivity; unfold add; set_solver.

Lemma map_date_to_ontology_additive (p : string) (g : graph) (cey : Z) :
  map_date_to_ontology p g cey
  = ((map_date_to_ontology p ∅ cey).1, g ∪ (map_date_to_ontology p ∅ cey).2).
Proof.
  unfold map_date_to_ontology, map_date_body.
  destruct (String.eqb p ""); cbn; [additive |].
  destruct (year_of p) as [y|e]; cbn; [| additive].
  repeat case_match; simplify_eq; cbn; additive.
Qed.

Lemma date_step_additive (env : environment) m details u v cey g s :
  date_step env m details u v cey g s
  = (g ∪ (date_step env m details u v cey ∅ s).1.1,
     (date_step env m details u v cey ∅ s).1.2,
     (date_step env m details u v cey ∅ s).2).
Proof.
  unfold date_step.
  destruct (parse_date env v (date_format m)) as [[p|]|e]; cbn;
    [| additive..].
  destruct (String.eqb p ""); cbn; [additive |].
  destruct (year_of p) as [y|e]; cbn; [| additive].
  destruct (cey <=? y); cbn; [| additive].
  rewrite (map_date_to_ontology_additive p g).
  destruct (map_date_to_ontology p ∅ cey) as [[d|] g0]; cbn;
    additive.
Qed.

Lemma process_field_additive (env : environment) r m u cey field details g s :
  process_field env r m u cey field details g s
  = (g ∪ (process_field env r m u cey field details ∅ s).1.1,
     (process_field env r m u cey field details ∅ s).1.2,
     (process_field env r m u cey field details ∅ s).2).
Proof.
  unfold process_field.
  destruct (get field r) as [v|]; cbn; [| additive].
  destruct (isna v); cbn; [additive |].
  destruct (match valid_values details with
            | Some vs => negb (cell_in v vs) | None => false end);
    cbn; [additive |].
  destruct (match mapping details with
            | Some d => Str <$> cell_lookup v d | None => Some v end) as [value|];
    cbn; [| additive].
  destruct (String.eqb field "date"); [apply date_step_additive |].
  destruct (bool_decide (object details = Some true)); cbn.
  - destruct (sanitize_uri (str value)); cbn; [| additive].
    destruct (related_class details); cbn;
      additive.
  - additive.
Qed.

Lemma process_fields_additive (env : environment) r m u cey fs :
  ∀ g s,
    process_fields env r m u cey fs g s
    = (g ∪ (process_fields env r m u cey fs ∅ s).1.1,
       (process_fields env r m u cey fs ∅ s).1.2,
       (process_fields env r m u cey fs ∅ s).2).
Proof.
  induction fs as [|[field details] fs IH]; intros g s; cbn [process_fields].
  - cbn. additive.
  - rewrite (process_field_additive env r m u cey field details g s).
    destruct (process_field env r m u cey field details ∅ s) as [[g0 s0] sig].
    cbn [fst snd]. destruct sig; [| reflexivity..].
    rewrite (IH (g ∪ g0)), (IH g0).
    destruct (process_fields env r m u cey fs ∅ s0) as [[g1 s1] sig1].
    cbn. additive.
Qed.

Lemma row_additive (env : environment) r m g cey s fresh :
  transform_row_to_rdf env r m g cey s fresh
  = ((transform_row_to_rdf env r m ∅ cey s fresh).1.1,
     g ∪ (transform_row_to_rdf env r m ∅ cey s fresh).1.2,
     (transform_row_to_rdf env r m ∅ cey s fresh).2).
Proof.
  unfold transform_row_to_rdf.
  destruct (entity_uri_of r m fresh) as [u|e]; cbn; [| additive].
  rewrite (process_fields_additive env r m u cey (fields m) (add _ g)).
  rewrite (process_fields_additive env r m u cey (fields m) (add _ ∅)).
  destruct (process_fields env r m u cey (fields m) ∅ s) as [[g1 s1] sig].
  cbn. destruct sig; cbn; additive.
Qed.

Lemma transform_rows_additive (env : environment) source m cey rows :
  ∀ g s,
    transform_rows env source m cey rows g s
    = (g ∪ (transform_rows env source m cey rows ∅ s).1,
       (transform_rows env source m cey rows ∅ s).2).
Proof.
  induction rows as [|r rows IH]; intros g s; cbn [transform_rows].
  - cbn. additive.
  - rewrite (row_additive env r m g).
    destruct (transform_row_to_rdf env r m ∅ cey (incr_total_rows s)
                (uuid4 env source (total_rows s))) as [[ok g0] s0].
    cbn [fst snd]. rewrite (IH (g ∪ g0)), (IH g0).
    destruct (transform_rows env source m cey rows ∅
                (if ok then incr_mapped_rows s0 else s0)) as [g1 s1].
    cbn. additive.
Qed.

Lemma transform_rows_app (env : environment) source m cey rows1 rows2 :
  ∀ g s,
    transform_rows env source m cey (rows1 ++ rows2)%list g s
    = transform_rows env source m cey rows2
        (transform_rows env source m cey rows1 g s).1
        (transform_rows env source m cey rows1 g s).2.
Proof.
  induction rows1 as [|r rows1 IH]; intros g s; [done |].
  cbn [app transform_rows].
  destruct (transform_row_to_rdf env r m g cey (incr_total_rows s)
              (uuid4 env source (total_rows s))) as [[ok g0] s0].
  apply IH.
Qed.

(** ** Chunks *)

Lemma string_app_inv_tail (x y s : string) : x ++ s = y ++ s → x = y.
Proof.
  revert y. induction x as [|c x IH]; intros [|d y] H.
  - done.
  - apply (f_equal String.length) in H.
    change (String.length s = S (String.length (y ++ s))) in H.
    rewrite length_app in H. lia.
  - apply (f_equal String.length) in H.
    change (S (String.length (x ++ s)) = String.length s) in H.
    rewrite length_app in H. lia.
  - change (String c (x ++ s) = String d (y ++ s)) in H.
    injection H as -> H. f_equal. by apply IH.
Qed.

Lemma chunk_file_name_inj (a b : nat) :
  chunk_file_name a = chunk_file_name b → a = b.
Proof.
  unfold chunk_file_name. intros H.
  apply String.app_inj, string_app_inv_tail in H.
  by apply (inj pretty) in H.
Qed.

Lemma mapM_app_outcome {A B : Type} (f : A → outcome B) (l1 l2 : list A) :
  mapM f (l1 ++ l2)%list
  = (x ← mapM f l1; y ← mapM f l2; Ret (x ++ y)%list).
Proof.
  induction l1 as [|a l1 IH]; cbn [app mapM].
  - cbn. by destruct (mapM f l2).
  - destruct (f a) as [b|e]; cbn; [| done]. rewrite IH.
    destruct (mapM f l1) as [x|e]; cbn; [| done].
    by destruct (mapM f l2).
Qed.

Lemma prepare_rows_app (env : environment) hl (rows1 rows2 : list row) :
  prepare_rows env hl (rows1 ++ rows2)%list
  = (x ← prepare_rows env hl rows1; y ← prepare_rows env hl rows2;
     Ret (x ++ y)%list).
Proof.
  unfold prepare_rows. destruct hl; [| done].
  rewrite mapM_app_outcome.
  destruct (mapM (locate_row env) rows1) as [x|e]; cbn; [| done].
  destruct (mapM (locate_row env) rows2) as [y|e]; cbn; [| done].
  by rewrite omap_app.
Qed.

Lemma prepare_chunk_rows (env : environment) hl (c : chunk) :
  c ≠ [] →
  prepare_chunk env hl c
  = (rows ← prepare_rows env hl c;
     Ret (match rows with [] => None | _ => Some rows end)).
Proof.
  intros Hc. unfold prepare_chunk, prepare_rows. destruct hl.
  - destruct (mapM (locate_row env) c) as [located|e]; cbn; [| done].
    by destruct (omap id located).
  - by destruct c.
Qed.

Lemma chunk_triples_insert (dir : gmap string file) (name : string)
    (g : graph) (t : triple) :
  dir !! name = None → is_chunk_file name = true →
  chunk_triples (<[name := Turtle g]> dir) t ↔ chunk_triples dir t ∨ t ∈ g.
Proof.
  intros Hfresh Hname. unfold chunk_triples. split.
  - intros (name' & g' & Hl & Hc & Ht).
    destruct (decide (name = name')) as [<- | Hne].
    + rewrite lookup_insert_eq in Hl. injection Hl as <-. by right.
    + rewrite lookup_insert_ne in Hl by done. left. eauto.
  - intros [(name' & g' & Hl & Hc & Ht) | Ht].
    + exists name', g'. split; [| done].
      rewrite lookup_insert_ne; [done |]. intros <-. congruence.
    + exists name, g. by rewrite lookup_insert_eq.
Qed.

(** The chunks of a table against its rows taken in one go. *)
Lemma transform_chunks_concat (env : environment) source m cey hl
    (chunks : list chunk) :
  ∀ n s dir,
    (∀ k, (n ≤ k)%nat → dir !! chunk_file_name k = None) →
    ∃ dir',
      match prepare_rows env hl (concat chunks) with
      | Raise e =>
          transform_chunks env source m cey hl n chunks s dir = (dir', Raise e)
      | Ret rows =>
          transform_chunks env source m cey hl n chunks s dir
          = (dir', Ret (transform_rows env source m cey rows ∅ s).2)
          ∧ (∀ t, chunk_triples dir' t ↔
                  chunk_triples dir t
                  ∨ t ∈ (transform_rows env source m cey rows ∅ s).1)
          ∧ (rows = [] → dir' = dir)
          ∧ (rows ≠ [] → ∃ k, is_Some (dir' !! chunk_file_name k))
      end.
Proof.
  induction chunks as [|c chunks IH]; intros n s dir Hfresh.
  - exists dir. destruct hl; cbn; (split; [done |]); (split; [| done]);
      intros t; set_solver.
  - cbn [concat transform_chunks]. rewrite prepare_rows_app.
    assert (∀ k, (S n ≤ k)%nat → dir !! chunk_file_name k = None) as Hfresh'
      by (intros k Hk; apply Hfresh; lia).
    destruct c as [|r0 c].
    { destruct (IH (S n) s dir Hfresh') as [dir' H]. exists dir'.
      assert (prepare_rows env hl [] = Ret []) as -> by (by destruct hl).
      cbn. by destruct (prepare_rows env hl (concat chunks)). }
    rewrite prepare_chunk_rows by done.
    destruct (prepare_rows env hl (r0 :: c)) as [rc|e];
      cbn [mbind outcome_bind mret outcome_ret]; [| by exists dir].
    destruct rc as [|r1 rc].
    { destruct (IH (S n) s dir Hfresh') as [dir' H]. exists dir'.
      by destruct (prepare_rows env hl (concat chunks)). }
    destruct (transform_rows env source m cey (r1 :: rc) ∅ s) as [g1 s1] eqn:H1.
    set (dir1 := <[chunk_file_name n := Turtle g1]> dir).
    assert (∀ k, (S n ≤ k)%nat → dir1 !! chunk_file_name k = None) as Hfresh1.
    { intros k Hk. unfold dir1. rewrite lookup_insert_ne; [by apply Hfresh' |].
      intros Heq%chunk_file_name_inj. lia. }
    destruct (IH (S n) s1 dir1 Hfresh1) as [dir' H]. exists dir'.
    destruct (prepare_rows env hl (concat chunks)) as [rr|e];
      cbn [mbind outcome_bind mret outcome_ret]; [| done].
    destruct H as (Hrun & Htriples & _ & _).
    rewrite (transform_rows_app env source m cey (r1 :: rc) rr ∅ s), H1.
    cbn [fst snd].
    rewrite (transform_rows_additive env source m cey rr g1 s1). cbn [fst snd].
    split; [done |]. split; [| split; [done |]].
    + intros t. rewrite Htriples. unfold dir1.
      rewrite chunk_triples_insert;
        [| by apply Hfresh | by apply is_chunk_file_name].
      rewrite elem_of_union. tauto.
    + intros _. exists n.
      destruct (transform_chunks_files env source m cey hl chunks _ _ _ _ _ Hrun
                  (chunk_file_name n)) as [_ [Hsame | [g Hg]]].
      * rewrite Hsame. unfold dir1. by rewrite lookup_insert_eq.
      * by rewrite Hg.
Qed.

(** ** One source on a clean directory *)

Lemma with_intermediate_same (w : world) : with_intermediate (intermediate w) w = w.
Proof. by destruct w. Qed.

Lemma not_chunk_file_name (name : string) (k : nat) :
  is_chunk_file name = false → name ≠ chunk_file_name k.
Proof. intros H ->. by rewrite is_chunk_file_name in H. Qed.

(** A source with a mapping, on a directory without chunk files, against
    its rows mapped in one pass. *)
Lemma source_step (env : environment) (source_name : string) (cey : Z)
    (w : world) (chunks : list chunk) (m : source_mapping) :
  clean_directory w →
  processed w !! source_name = Some chunks →
  mappings env !! source_name = Some m →
  match prepare_rows env (bool_decide ("location_name" ∈ (fields m).*1))
          (concat chunks) with
  | Raise e => ∃ w', load_and_transform_data env source_name cey w = (w', Raise e)
  | Ret rows =>
      let one := transform_rows env source_name m cey rows ∅ new_summary in
      ∃ w1,
        load_and_transform_data env source_name cey w = (w1, Ret one.2)
        ∧ match rows with
          | [] => w1 = w
          | _ =>
              combine_ttl_files source_name w1
              = ({| processed := processed w;
                    intermediate := intermediate w;
                    transformed := <[source_name := Turtle one.1]> (transformed w);
                    printed := printed w |}, Ret ())
          end
  end.
Proof.
  intros Hclean Hchunks Hm. unfold load_and_transform_data.
  rewrite Hchunks, Hm.
  set (hl := bool_decide ("location_name" ∈ (fields m).*1)).
  destruct (transform_chunks_concat env source_name m cey hl chunks 0
              new_summary (intermediate w)) as [dir' H].
  { intros k _. apply Hclean, is_chunk_file_name. }
  destruct (prepare_rows env hl (concat chunks)) as [rows|e].
  2: { rewrite H. eauto. }
  destruct H as (Hrun & Htriples & Hnil & Hsome). rewrite Hrun.
  cbn zeta. eexists. split; [done |].
  destruct rows as [|r rows].
  { rewrite Hnil by done. apply with_intermediate_same. }
  destruct (Hsome ltac:(done)) as [k Hk].
  pose proof (transform_chunks_files env source_name m cey hl chunks _ _ _ _ _ Hrun)
    as Hfiles.
  destruct (combine_ttl_files_readable source_name (with_intermediate dir' w))
    as [w2 Hw2].
  { cbn. intros name f Hf Hc.
    destruct (Hfiles name) as [_ [Hsame | [g Hg]]].
    - rewrite Hsame, (Hclean name Hc) in Hf. done.
    - rewrite Hg in Hf. injection Hf as <-. eauto. }
  { exists (chunk_file_name k). split; [apply is_chunk_file_name | done]. }
  rewrite Hw2. f_equal.
  destruct (combine_ttl_files_ret _ _ _ Hw2) as (G & Ht & HG & Hi & Hp & Hpr & _).
  destruct w2 as [p2 i2 t2 pr2]. cbn in *. subst p2 t2 pr2.
  f_equal.
  - apply map_eq. intros name. rewrite Hi.
    destruct (is_chunk_file name) eqn:Hc; [by rewrite Hclean |].
    apply Hfiles. intros k' _. by apply not_chunk_file_name.
  - do 2 f_equal. apply set_eq. intros t. rewrite HG.
    pose proof (Htriples t) as Ht. unfold chunk_triples in Ht. rewrite Ht.
    split; [| by right]. intros [(name & g & Hl & Hc & _) | ?]; [| done].
    by rewrite (Hclean name Hc) in Hl.
Qed.

Lemma no_rows_no_output (env : environment) (source_name : string) (cey : Z)
    (rest : list string) (w : world) (chunks : list chunk) :
  clean_directory w →
  processed w !! source_name = Some chunks →
  match mappings env !! source_name with
  | None => True
  | Some m =>
      prepare_rows env (bool_decide ("location_name" ∈ (fields m).*1))
        (concat chunks) = Ret []
  end →
  process_sources env cey (source_name :: rest) w = (w, Raise ValueError).
Proof.
  intros Hclean Hchunks Hrows. cbn [process_sources].
  destruct (mappings env !! source_name) as [m|] eqn:Hm.
  - pose proof (source_step env source_name cey w chunks m Hclean Hchunks Hm) as H.
    rewrite Hrows in H.
    destruct H as (w1 & -> & ->). by rewrite combine_ttl_files_empty.
  - unfold load_and_transform_data. rewrite Hchunks, Hm.
    by rewrite combine_ttl_files_empty.
Qed.

Lemma source_one_pass (env : environment) (source_name : string) (cey : Z)
    (rest : list string) (w : world) (chunks : list chunk)
    (m : source_mapping) (rows : list row) :
  clean_directory w →
  processed w !! source_name = Some chunks →
  mappings env !! source_name = Some m →
  prepare_rows env (bool_decide ("location_name" ∈ (fields m).*1))
    (concat chunks) = Ret rows →
  rows ≠ [] →
  process_sources env cey (source_name :: rest) w
  = process_sources env cey rest
      (after_source source_name
         (transform_rows env source_name m cey rows ∅ new_summary) w).
Proof.
  intros Hclean Hchunks Hm Hrows Hne. cbn [process_sources].
  pose proof (source_step env source_name cey w chunks m Hclean Hchunks Hm) as H.
  rewrite Hrows in H. destruct H as (w1 & -> & H).
  destruct rows as [|r rows]; [done |]. by rewrite H.
Qed.

Lemma after_source_clean (source_name : string) (result : graph * summary)
    (w : world) :
  clean_directory w → clean_directory (after_source source_name result w).
Proof. done. Qed.






Lemma quarterly_world_clean : clean_directory quarterly_world.
Proof.
  intros name Hc. cbn. apply lookup_singleton_None. intros <-. done.
Qed.

(** X12: what a row adds to the graph does not depend on what the graph
    holds.  The result of [transform_row_to_rdf], the summary it leaves and
    the triples it adds are those of the same call on an empty graph, and
    the same goes for the loop over the rows of a chunk. *)
Theorem row_triples_ignore_the_graph (env : environment) (source_name : string)
    (m : source_mapping) (cey : Z) (g : graph) (s : summary) :
  (∀ r fresh,
     transform_row_to_rdf env r m g cey s fresh
     = ((transform_row_to_rdf env r m ∅ cey s fresh).1.1,
        g ∪ (transform_row_to_rdf env r m ∅ cey s fresh).1.2,
        (transform_row_to_rdf env r m ∅ cey s fresh).2))
  ∧ (∀ rows,
       transform_rows env source_name m cey rows g s
       = (g ∪ (transform_rows env source_name m cey rows ∅ s).1,
          (transform_rows env source_name m cey rows ∅ s).2)).
Proof.
  split.
  - intros r fresh. apply row_additive.
  - intros rows. apply transform_rows_additive.
Qed.



(** X15: a source that gives the mapper no row stops the run.  On a
    directory without chunk files, a source whose table exists but which
    has no mapping, or whose rows are all removed by the location filter
    (an empty table included), writes no chunk file; the merge then asks
    for a progress bar over zero files and the [ValueError] of the bar
    ends the run, with nothing written or printed for the source. *)
Theorem source_without_rows_stops_the_run (env : environment)
    (source_name : string) (cey : Z) (rest : list string) (w : world)
    (chunks : list chunk) :
  clean_directory w →
  processed w !! source_name = Some chunks →
  match mappings env !! source_name with
  | None => True
  | Some m =>
      prepare_rows env (bool_decide ("location_name" ∈ (fields m).*1))
        (concat chunks) = Ret []
  end →
  process_sources env cey (source_name :: rest) w = (w, Raise ValueError).
Proof. apply no_rows_no_output. Qed.

Lemma source_without_rows_stops_the_run_witness :
  process_sources (example_env ["Leeds"; "York"] MAPPINGS) 2019
    ["school_count"; "national_rates"]
    {| processed :=
         {[ "school_count" :=
              [[ [("date", Str "2019-20"); ("location_name", Str "Atlantis");
                  ("school_count", Num 3)] ]; []] ]};
       intermediate := ∅; transformed := ∅; printed := [] |}
  = ({| processed :=
          {[ "school_count" :=
               [[ [("date", Str "2019-20"); ("location_name", Str "Atlantis");
                   ("school_count", Num 3)] ]; []] ]};
        intermediate := ∅; transformed := ∅; printed := [] |},
     Raise ValueError).
Proof.
  apply (source_without_rows_stops_the_run (example_env ["Leeds"; "York"] MAPPINGS)
           "school_count" 2019 ["national_rates"] _
           [[ [("date", Str "2019-20"); ("location_name", Str "Atlantis");
               ("school_count", Num 3)] ]; []]).
  - intros name _. apply lookup_empty.
  - reflexivity.
  - vm_compute. reflexivity.
Defined.

(** X16: a run that returns leaves the disk in order.  From a directory
    without chunk files, when the loop over the sources returns, every
    source had a table and a mapping, the output of every source is a
    readable graph, no other output was touched, one summary was printed
    per source in the order of the sources, and the intermediate
    directory and the processed tables are as they were found. *)
Theorem returned_run_outputs (env : environment) (cey : Z)
    (source_names : list string) :
  ∀ w w',
    clean_directory w →
    process_sources env cey source_names w = (w', Ret ()) →
    intermediate w' = intermediate w
    ∧ processed w' = processed w
    ∧ (printed w').*1 = ((printed w).*1 ++ source_names)%list
    ∧ (∀ source_name, source_name ∈ source_names →
         is_Some (processed w !! source_name)
         ∧ is_Some (mappings env !! source_name)
         ∧ ∃ G, transformed w' !! source_name = Some (Turtle G))
    ∧ (∀ name, name ∉ source_names →
         transformed w' !! name = transformed w !! name).
Proof.
  induction source_names as [|source_name rest IH]; intros w w' Hclean Hrun.
  { cbn in Hrun. injection Hrun as <-. rewrite app_nil_r.
    split; [done |]. split; [done |]. split; [done |]. split; [| done].
    intros ? []%elem_of_nil. }
  destruct (processed w !! source_name) as [chunks|] eqn:Hchunks.
  2: { cbn [process_sources] in Hrun. unfold load_and_transform_data in Hrun.
       by rewrite Hchunks in Hrun. }
  destruct (mappings env !! source_name) as [m|] eqn:Hm.
  2: { rewrite (no_rows_no_output env source_name cey rest w chunks) in Hrun;
         rewrite ?Hm; done. }
  pose proof (source_step env source_name cey w chunks m Hclean Hchunks Hm) as Hstep.
  destruct (prepare_rows env (bool_decide ("location_name" ∈ (fields m).*1))
              (concat chunks)) as [rows|e] eqn:Hrows.
  2: { destruct Hstep as [w1 Hstep]. cbn [process_sources] in Hrun.
       by rewrite Hstep in Hrun. }
  clear Hstep. destruct (decide (rows = [])) as [-> | Hne].
  { rewrite (no_rows_no_output env source_name cey rest w chunks) in Hrun;
      rewrite ?Hm; done. }
  rewrite (source_one_pass env source_name cey rest w chunks m rows) in Hrun
    by done.
  apply IH in Hrun as (Hi & Hp & Hpr & Hin & Hout);
    [| by apply after_source_clean].
  cbn in Hi, Hp, Hpr, Hout. split; [done |]. split; [done |]. split.
  { rewrite Hpr, fmap_app. cbn. by rewrite <- (assoc_L (++)). }
  split.
  - intros name [-> | Hname]%elem_of_cons.
    + split; [by rewrite Hchunks |]. split; [by rewrite Hm |].
      destruct (decide (source_name ∈ rest)) as [Hrest | Hrest].
      * by apply Hin.
      * rewrite (Hout _ Hrest), lookup_insert_eq. eauto.
    + destruct (Hin name Hname) as (Hp' & Hm' & HG). done.
  - intros name Hname. apply not_elem_of_cons in Hname as [Hne' Hrest].
    rewrite (Hout _ Hrest). by apply lookup_insert_ne.
Qed.

Lemma returned_run_outputs_witness :
  ∃ w',
    process_sources rates_env 2019 ["national_rates"; "regional_rates"]
      quarterly_world = (w', Ret ())
    ∧ intermediate w' = intermediate quarterly_world
    ∧ processed w' = processed quarterly_world
    ∧ (printed w').*1 = ["national_rates"; "regional_rates"].
Proof.
  set (run := process_sources rates_env 2019 ["national_rates"; "regional_rates"]
                quarterly_world).
  assert (run.2 = Ret ()) as H2 by (vm_compute; reflexivity).
  assert (run = (run.1, Ret ())) as Hrun
    by (rewrite <- H2; apply surjective_pairing).
  exists (run.1). split; [exact Hrun |].
  destruct (returned_run_outputs rates_env 2019
              ["national_rates"; "regional_rates"] quarterly_world (run.1)
              quarterly_world_clean Hrun) as (Hi & Hp & Hpr & _).
  split; [exact Hi |]. split; [exact Hp | exact Hpr].
Defined.

(** ** The skeleton of the ontology and its population *)

Lemma elem_of_add_all (ts : list triple) (g : graph) (t : triple) :
  t ∈ add_all ts g ↔ t ∈ ts ∨ t ∈ g.
Proof.
  unfold add_all. revert g. induction ts as [|a ts IH]; intros g; cbn [foldl].
  - split; [by right | by intros [[]%elem_of_nil | ?]].
  - rewrite IH, elem_of_cons. unfold add. set_solver.
Qed.

Lemma elem_of_create_ontology (cfg : ontology_tables) (g : graph) (t : triple) :
  t ∈ create_ontology cfg g ↔
  t ∈ g
  ∨ t ∈ CLASSES cfg ≫= class_triples
  ∨ t ∈ SUBCLASSES cfg ≫= subclass_triples
  ∨ t ∈ OBJECT_PROPERTIES cfg ≫= object_property_triples
  ∨ t ∈ DATA_PROPERTIES cfg ≫= data_property_triples.
Proof. unfold create_ontology. rewrite !elem_of_add_all. tauto. Qed.

Lemma elem_of_populate_ontology (files : list file) (g : graph) (t : triple) :
  t ∈ populate_ontology files g ↔
  t ∈ g ∨ ∃ f, f ∈ files ∧ t ∈ (parse_into f ∅).1.
Proof.
  revert g. induction files as [|f files IH]; intros g; cbn [populate_ontology].
  - split; [by left |]. by intros [? | (f & []%elem_of_nil & _)].
  - rewrite IH.
    assert (t ∈ (parse_into f g).1 ↔ t ∈ g ∨ t ∈ (parse_into f ∅).1) as ->
      by (destruct f; cbn; set_solver).
    split.
    + intros [[? | ?] | (f' & Hin & Ht)].
      * by left.
      * right. exists f. split; [left | done].
      * right. exists f'. split; [by right | done].
    + intros [? | (f' & [-> | Hin]%elem_of_cons & Ht)].
      * by left; left.
      * by left; right.
      * right. eauto.
Qed.

(** X17: populating keeps the skeleton.  Whatever the transformed files
    hold, readable or not, every class, subclass link, domain, range and
    data property of the configuration is declared in the populated
    graph; creating the skeleton before or after the population gives the
    same graph, and creating it twice changes nothing. *)
Theorem skeleton_survives_population (cfg : ontology_tables)
    (files : list file) (g : graph) :
  (∀ name uri, (name, uri) ∈ CLASSES cfg →
     (URIRef uri, RDF_type, URIRef (OWL "Class"))
       ∈ populate_ontology files (create_ontology cfg g))
  ∧ (∀ name uri parent, (name, uri, parent) ∈ SUBCLASSES cfg →
       (URIRef uri, URIRef (RDFS "subClassOf"), URIRef parent)
         ∈ populate_ontology files (create_ontology cfg g))
  ∧ (∀ name uri domain range,
       (name, uri, domain, range) ∈ OBJECT_PROPERTIES cfg →
       (URIRef uri, URIRef (RDFS "domain"), URIRef domain)
         ∈ populate_ontology files (create_ontology cfg g)
       ∧ (URIRef uri, URIRef (RDFS "range"), URIRef range)
           ∈ populate_ontology files (create_ontology cfg g))
  ∧ (∀ name uri, (name, uri) ∈ DATA_PROPERTIES cfg →
       (URIRef uri, RDF_type, URIRef (OWL "DatatypeProperty"))
         ∈ populate_ontology files (create_ontology cfg g))
  ∧ populate_ontology files (create_ontology cfg g)
    = create_ontology cfg (populate_ontology files g)
  ∧ create_ontology cfg (create_ontology cfg g) = create_ontology cfg g.
Proof.
  repeat apply conj.
  - intros name uri Hin. apply elem_of_populate_ontology. left.
    apply elem_of_create_ontology. right. left.
    apply list_elem_of_bind. exists (name, uri). split; [| done]. cbn. left.
  - intros name uri parent Hin. apply elem_of_populate_ontology. left.
    apply elem_of_create_ontology. right. right. left.
    apply list_elem_of_bind. exists (name, uri, parent). split; [| done].
    cbn. right. left.
  - intros name uri domain range Hin.
    split; apply elem_of_populate_ontology; left;
      apply elem_of_create_ontology; right; right; right; left;
      apply list_elem_of_bind; exists (name, uri, domain, range);
      (split; [| done]); cbn.
    + right. left.
    + right. right. left.
  - intros name uri Hin. apply elem_of_populate_ontology. left.
    apply elem_of_create_ontology. right. right. right. right.
    apply list_elem_of_bind. exists (name, uri). split; [| done]. cbn. left.
  - apply set_eq. intros t.
    rewrite elem_of_populate_ontology, !elem_of_create_ontology,
      elem_of_populate_ontology. tauto.
  - apply set_eq. intros t. rewrite !elem_of_create_ontology. tauto.
Qed.

(** ** Chunk counts *)

(** X18: the chunk count of an existing file always fits the progress
    bar.  [get_total_chunks] answers 1 up to the threshold and above it the
    size divided by [CHUNK_SIZE * 1024], rounded up; the answer is never
    below 1, so [create_progress_bar] accepts it. *)
Theorem total_chunks_fit_the_progress_bar (size : Z) :
  ∃ n,
    get_total_chunks (Some size) = Ret n
    ∧ 1 ≤ n
    ∧ create_progress_bar n = Ret ()
    ∧ (size ≤ LARGE_FILE_THRESHOLD → n = 1)
    ∧ (LARGE_FILE_THRESHOLD < size →
       (n - 1) * (CHUNK_SIZE * 1024) < size ≤ n * (CHUNK_SIZE * 1024)).
Proof.
  unfold get_total_chunks, create_progress_bar, LARGE_FILE_THRESHOLD, CHUNK_SIZE.
  destruct (Z.ltb_spec (100 * 1024 * 1024) size) as [Hlarge | Hsmall].
  - eexists. split; [reflexivity |].
    pose proof (Z.div_mod (- size) (100000 * 1024) ltac:(lia)) as Hdiv.
    pose proof (Z.mod_pos_bound (- size) (100000 * 1024) ltac:(lia)) as Hmod.
    set (q := - size / (100000 * 1024)) in *.
    assert (1 ≤ - q) as Hq by lia.
    split; [done |]. split.
    + destruct (Z.ltb_spec (- q) 1); [lia | done].
    + split; lia.
  - exists 1. split; [done |]. split; [done |]. split; [done |]. split; lia.
Qed.

(** ** The common earliest year and the order of the sources *)




(** ** The location filter *)

Lemma get_set_column (k : string) (v : cell) (r : row) (label : string) :
  get label (set_column k v r) = if String.eqb label k then Some v else get label r.
Proof.
  unfold set_column. destruct (bool_decide (is_Some (get k r))) eqn:Hk.
  - apply bool_decide_eq_true in Hk.
    induction r as [|[l c] r IH]; cbn in *.
    + by destruct Hk.
    + destruct (String.eqb_spec l k) as [-> | Hlk]; cbn.
      * destruct (String.eqb_spec k label) as [<- | Hne].
        -- by rewrite String.eqb_refl.
        -- destruct (String.eqb_spec label k) as [-> | _]; [done |].
           clear IH Hk. induction r as [|[l' c'] r IH]; cbn; [done |].
           destruct (String.eqb_spec l' k) as [-> | Hl']; cbn.
           ++ destruct (String.eqb_spec k label); [done | apply IH].
           ++ destruct (String.eqb_spec l' label); [done | apply IH].
      * destruct (String.eqb_spec l label) as [-> | Hne].
        -- by destruct (String.eqb_spec label k).
        -- by apply IH.
  - apply bool_decide_eq_false in Hk.
    assert (get k r = None) as Hnone by (by destruct (get k r); [destruct Hk |]).
    clear Hk. induction r as [|[l c] r IH]; cbn in *.
    + rewrite String.eqb_sym. by destruct (String.eqb k label).
    + destruct (String.eqb_spec l k) as [-> | Hlk]; [done |].
      destruct (String.eqb_spec l label) as [-> | Hne].
      * by destruct (String.eqb_spec label k).
      * by apply IH.
Qed.

Lemma get_drop_column (d : string) (r : row) (label : string) :
  get label (drop_column d r) = if String.eqb label d then None else get label r.
Proof.
  induction r as [|[l c] r IH].
  - cbn. by destruct (String.eqb label d).
  - change (drop_column d ((l, c) :: r))
      with (if decide (l ≠ d) then (l, c) :: drop_column d r
            else drop_column d r).
    destruct (decide (l ≠ d)) as [Hld | Hld].
    + cbn [get]. rewrite IH.
      destruct (String.eqb_spec l label) as [-> | Hne]; [| done].
      by destruct (String.eqb_spec label d).
    + apply dec_stable in Hld. subst l.
      rewrite IH. cbn [get]. destruct (String.eqb_spec d label) as [-> | Hne].
      * by rewrite String.eqb_refl.
      * done.
Qed.

Lemma get_rename_column (old new : string) (r : row) (label : string) :
  old ≠ new →
  get new r = None →
  get label (rename_column old new r)
  = if String.eqb label new then get old r
    else if String.eqb label old then None
    else get label r.
Proof.
  intros Hon Hnew. unfold rename_column.
  induction r as [|[l c] r IH]; cbn in *.
  - by destruct (String.eqb label new), (String.eqb label old).
  - destruct (String.eqb_spec l new) as [-> | Hln]; [done |].
    specialize (IH Hnew). revert IH.
    destruct (String.eqb_spec l old) as [-> | Hlo]; cbn;
      repeat match goal with
             | |- context [String.eqb ?a ?b] =>
                 destruct (String.eqb_spec a b); subst; try done
             end.
Qed.

Lemma locate_row_some (env : environment) (r r' : row) :
  locate_row env r = Ret (Some r') →
  ∃ name v,
    get "location_name" r = Some (Str name)
    ∧ validate_location env (clean_location_name name) = Some v
    ∧ v ∈ valid_locations env
    ∧ get "location_name" r' = Some (Str v)
    ∧ get "valid_location" r' = None
    ∧ ∀ label, label ≠ "location_name" → label ≠ "valid_location" →
               get label r' = get label r.
Proof.
  unfold locate_row.
  destruct (get "location_name" r) as [[| name |]|] eqn:Hname; try done.
  destruct (validate_location env (clean_location_name name)) as [v|] eqn:Hv;
    [| done].
  cbn. intros [= <-]. exists name, v. split; [done |]. split; [done |]. split.
  { unfold validate_location in Hv.
    apply first_match_some in Hv as (before & after & -> & _).
    apply elem_of_app. right. left. }
  assert (get "location_name"
            (drop_column "location_name"
               (set_column "valid_location" (Str v) r)) = None) as Hdropped
    by (by rewrite get_drop_column).
  split; [| split].
  - rewrite get_rename_column by done. cbn.
    by rewrite get_drop_column, get_set_column.
  - by rewrite get_rename_column.
  - intros label Hl Hv'. rewrite get_rename_column by done.
    destruct (String.eqb_spec label "location_name"); [done |].
    destruct (String.eqb_spec label "valid_location"); [done |].
    rewrite get_drop_column.
    destruct (String.eqb_spec label "location_name"); [done |].
    rewrite get_set_column.
    by destruct (String.eqb_spec label "valid_location").
Qed.

(** X20: the rows that leave the location filter carry a name of the
    reference list.  Every row of a prepared chunk comes from a row of the
    chunk whose location is a string that the validator accepts; its
    [location_name] is the entry of the reference list that the validator
    chose, it has no [valid_location] column, and all its other columns
    are those of the original row. *)
Theorem prepared_rows_carry_valid_locations (env : environment) (c : chunk)
    (rows : list row) :
  prepare_chunk env true c = Ret (Some rows) →
  ∀ r', r' ∈ rows →
    ∃ r name v,
      r ∈ c
      ∧ get "location_name" r = Some (Str name)
      ∧ validate_location env (clean_location_name name) = Some v
      ∧ v ∈ valid_locations env
      ∧ get "location_name" r' = Some (Str v)
      ∧ get "valid_location" r' = None
      ∧ ∀ label, label ≠ "location_name" → label ≠ "valid_location" →
                 get label r' = get label r.
Proof.
  unfold prepare_chunk. intros H r' Hr'.
  pose proof (mapM_cases (locate_row env) c) as Hall.
  destruct (mapM (locate_row env) c) as [located|e]; cbn in H; [| done].
  assert (rows = omap id located) as ->
    by (destruct (omap id located); by simplify_eq).
  apply list_elem_of_omap in Hr' as (o & Ho & Hsome). cbn in Hsome. subst o.
  apply list_elem_of_lookup in Ho as [i Hi].
  destruct (Forall2_lookup_r _ _ _ _ _ Hall Hi) as (r & Hr & Hloc).
  destruct (locate_row_some env r r' Hloc) as (name & v & H').
  exists r, name, v. split; [| done]. by eapply list_elem_of_lookup_2.
Qed.

Lemma prepared_rows_carry_valid_locations_witness :
  ∃ rows,
    prepare_chunk schools_env true
      [ [("date", Str "2019-20"); ("location_name", Str "Leeds ua");
         ("school_count", Num 12)];
        [("date", Str "2019-20"); ("location_name", Str "Atlantis");
         ("school_count", Num 3)];
        [("date", Str "2020-21"); ("location_name", Str "City of York");
         ("school_count", Num 7)] ] = Ret (Some rows)
    ∧ length rows = 2%nat
    ∧ ∀ r', r' ∈ rows →
        ∃ r name v,
          r ∈ [ [("date", Str "2019-20"); ("location_name", Str "Leeds ua");
                 ("school_count", Num 12)];
                [("date", Str "2019-20"); ("location_name", Str "Atlantis");
                 ("school_count", Num 3)];
                [("date", Str "2020-21"); ("location_name", Str "City of York");
                 ("school_count", Num 7)] ]
          ∧ get "location_name" r = Some (Str name)
          ∧ validate_location schools_env (clean_location_name name) = Some v
          ∧ v ∈ valid_locations schools_env
          ∧ get "location_name" r' = Some (Str v)
          ∧ get "valid_location" r' = None
          ∧ ∀ label, label ≠ "location_name" → label ≠ "valid_location" →
                     get label r' = get label r.
Proof.
  eexists. split; [vm_compute; reflexivity |]. split; [reflexivity |].
  apply (prepared_rows_carry_valid_locations schools_env). reflexivity.
Defined.

(** ** Formats *)

Lemma try_formats_app (env : environment) (s : string) (fs1 fs2 : list string) :
  try_formats env s (fs1 ++ fs2)
  = match try_formats env s fs1 with
    | Ret None => try_formats env s fs2
    | r => r
    end.
Proof.
  induction fs1 as [|f fs1 IH]; cbn [app try_formats]; [done |].
  destruct (parse_with env s f) as [[p|]|[]]; done.
Qed.

Lemma try_formats_no_value_error (env : environment) (s : string)
    (fs : list string) :
  try_formats env s fs ≠ Raise ValueError.
Proof.
  induction fs as [|f fs IH]; cbn [try_formats]; [done |].
  destruct (parse_with env s f) as [[p|]|[]]; done.
Qed.

(** X21: [parse_date] never raises [ValueError].  A format that fails
    with it, or that no branch knows, is passed over and the next one is
    tried, so the formats of a list act one after the other: the result
    over [fs1 ++ fs2] is the result over [fs1] unless that is [None], and
    then it is the result over [fs2].  A missing value gives [None]
    whatever the formats. *)
Theorem parse_date_passes_over_value_errors (env : environment) (v : cell)
    (fs1 fs2 : list string) :
  parse_date env v (FormatList (fs1 ++ fs2)) ≠ Raise ValueError
  ∧ parse_date env v (FormatList (fs1 ++ fs2))
    = match parse_date env v (FormatList fs1) with
      | Ret None => parse_date env v (FormatList fs2)
      | r => r
      end
  ∧ (∀ f, parse_date env v (OneFormat f) = parse_date env v (FormatList [f]))
  ∧ (isna v = true → ∀ fs, parse_date env v fs = Ret None).
Proof.
  unfold parse_date. split; [| split; [| split]].
  - destruct (isna v); [done | apply try_formats_no_value_error].
  - destruct (isna v); [done | apply try_formats_app].
  - done.
  - by intros ->.
Qed.

(** ** Academic years *)

Lemma parse_with_academic_year (env : environment) (d : string) :
  parse_with env d DATE_FORMATS.ACADEMIC_YEAR
  = (year ← Py.int_of_str (Py.take 4 d); Ret (Some (Py.str_of_int year))).
Proof. reflexivity. Qed.

Lemma isdecimal_code (c : ascii) :
  Py.isdecimal c = true → (48 ≤ Py.code c ≤ 57)%N.
Proof.
  unfold Py.isdecimal, Py.between.
  rewrite andb_true_iff, !N.leb_le. done.
Qed.

Lemma int_digits_bound (s : string) :
  ∀ acc b z,
    0 ≤ acc → Py.int_digits acc b s = Some z →
    0 ≤ z < (acc + 1) * 10 ^ Z.of_nat (String.length s).
Proof.
  induction s as [|c s IH]; intros acc b z Hacc H; cbn [Py.int_digits] in H.
  - destruct b; [| done]. injection H as <-. cbn. lia.
  - cbn [String.length]. rewrite Nat2Z.inj_succ, Z.pow_succ_r by lia.
    pose proof (Z.pow_pos_nonneg 10 (Z.of_nat (String.length s))
                  ltac:(lia) ltac:(lia)) as Hpow.
    destruct (Py.isdecimal c) eqn:Hc.
    + apply isdecimal_code in Hc.
      apply IH in H; [| lia]. nia.
    + destruct (Py.code c =? 95)%N; [| done].
      destruct b; [| done]. apply IH in H; [| done]. nia.
Qed.

Lemma length_int_lstrip (s : string) :
  (String.length (Py.int_lstrip s) ≤ String.length s)%nat.
Proof.
  induction s as [|c s IH]; cbn; [done |].
  destruct (Py.int_space c); cbn; lia.
Qed.

Lemma length_rev_app (s1 s2 : string) :
  String.length (String.rev_app s1 s2)
  = (String.length s1 + String.length s2)%nat.
Proof.
  revert s2. induction s1 as [|c s1 IH]; intros s2; cbn; [done |].
  rewrite IH. cbn. lia.
Qed.

Lemma length_int_strip (s : string) :
  (String.length (Py.int_strip s) ≤ String.length s)%nat.
Proof.
  unfold Py.int_strip, String.rev. rewrite length_rev_app. cbn.
  etrans; [rewrite Nat.add_0_r; apply length_int_lstrip |].
  rewrite length_rev_app. cbn. rewrite Nat.add_0_r. apply length_int_lstrip.
Qed.

Lemma length_take (n : nat) (s : string) :
  (String.length (Py.take n s) ≤ n)%nat.
Proof.
  unfold Py.take. revert s. induction n as [|n IH]; intros s.
  - by destruct s.
  - destruct s as [|c s]; cbn; [lia |]. specialize (IH s). lia.
Qed.

Lemma int_of_str_signs (s : string) :
  Py.int_of_str s
  = match Py.int_strip s with
    | "" => Raise ValueError
    | String c r =>
        if Ascii.eqb c "+" then Py.int_unsigned r
        else if Ascii.eqb c "-" then z ← Py.int_unsigned r; Ret (- z)
        else Py.int_unsigned (String c r)
    end.
Proof.
  unfold Py.int_of_str. destruct (Py.int_strip s) as [|c r]; [done |].
  destruct c as [[] [] [] [] [] [] [] []]; reflexivity.
Qed.

Lemma int_unsigned_bound (t : string) (y : Z) :
  Py.int_unsigned t = Ret y → 0 ≤ y < 10 ^ Z.of_nat (String.length t).
Proof.
  unfold Py.int_unsigned.
  destruct (Py.max_str_digits <? Z.of_nat (Py.count_digits t)); [done |].
  destruct (Py.int_digits 0 false t) as [z|] eqn:Hz; [| done].
  intros [= <-]. apply int_digits_bound in Hz; lia.
Qed.

Lemma int_of_str_bound (s : string) (z : Z) :
  (String.length s ≤ 4)%nat → Py.int_of_str s = Ret z → -999 ≤ z ≤ 9999.
Proof.
  intros Hlen. rewrite int_of_str_signs.
  pose proof (length_int_strip s) as Hstrip.
  destruct (Py.int_strip s) as [|c r]; [done |]. cbn [String.length] in Hstrip.
  assert (∀ k : nat, (k ≤ 3)%nat → 10 ^ Z.of_nat k ≤ 1000) as Hsmall.
  { intros k Hk.
    assert (k = 0 ∨ k = 1 ∨ k = 2 ∨ k = 3)%nat as [-> | [-> | [-> | ->]]]
      by lia; cbn; lia. }
  specialize (Hsmall (String.length r) ltac:(lia)).
  destruct (Ascii.eqb c "+"); [| destruct (Ascii.eqb c "-")].
  - intros Hy%int_unsigned_bound. lia.
  - destruct (Py.int_unsigned r) as [y|] eqn:Hy; [| done].
    intros [= <-]. apply int_unsigned_bound in Hy. lia.
  - intros Hy%int_unsigned_bound.
    cbn [String.length] in Hy. rewrite Nat2Z.inj_succ, Z.pow_succ_r in Hy by lia.
    lia.
Qed.

Lemma length_pretty_N_go (k : nat) :
  ∀ (x : N) (s : string),
    (x < 10 ^ N.of_nat k)%N →
    (String.length (pretty_N_go x s) ≤ String.length s + k)%nat.
Proof.
  induction k as [|k IH]; intros x s Hx.
  - assert (x = 0%N) as -> by (cbn in Hx; lia). rewrite pretty_N_go_0. lia.
  - destruct (decide (x = 0%N)) as [-> | Hpos]; [rewrite pretty_N_go_0; lia |].
    rewrite pretty_N_go_step by lia.
    etrans; [apply IH |]; [| cbn; lia].
    rewrite Nat2N.inj_succ, N.pow_succ_r' in Hx.
    apply N.Div0.div_lt_upper_bound. lia.
Qed.

Lemma length_str_of_int (z : Z) :
  -999 ≤ z ≤ 9999 → (String.length (Py.str_of_int z) ≤ 4)%nat.
Proof.
  intros Hz. unfold Py.str_of_int, pretty, pretty_Z.
  destruct z as [|x|x]; [cbn; lia | |].
  - unfold pretty, pretty_positive, pretty, pretty_N.
    rewrite decide_False by done.
    apply (length_pretty_N_go 4 (N.pos x) ""). cbn. lia.
  - change (S (String.length (pretty x)) ≤ 4)%nat.
    unfold pretty, pretty_positive, pretty, pretty_N.
    rewrite decide_False by done.
    pose proof (length_pretty_N_go 3 (N.pos x) "") as H. cbn in H.
    apply le_n_S, H. lia.
Qed.

(** X22: an academic year is recorded as a plain year.  With the
    academic-year format, a date that parses gives the decimal text of the
    integer read from the first four characters of the stripped value: a
    text of at most four characters.  [map_date_to_ontology] can then only
    answer with a [Year] node for it, never with an [AcademicYear]
    node. *)
Theorem academic_year_becomes_a_year_node (env : environment) (v : cell)
    (p : string) :
  parse_date env v (OneFormat DATE_FORMATS.ACADEMIC_YEAR) = Ret (Some p) →
  ∃ year,
    Py.int_of_str (Py.take 4 (Py.strip (str v))) = Ret year
    ∧ p = Py.str_of_int year
    ∧ -999 ≤ year ≤ 9999
    ∧ (String.length p ≤ 4)%nat
    ∧ ∀ g cey u,
        (map_date_to_ontology p g cey).1 = Some u → u = time_entity "Year" p.
Proof.
  unfold parse_date. destruct (isna v); [done |].
  cbn [try_formats]. rewrite parse_with_academic_year.
  destruct (Py.int_of_str (Py.take 4 (Py.strip (str v)))) as [year|e] eqn:Hyear;
    cbn; [| by destruct e].
  intros [= <-]. exists year.
  pose proof (int_of_str_bound _ _ (length_take 4 _) Hyear) as Hbound.
  pose proof (length_str_of_int year Hbound) as Hlen.
  split; [done |]. split; [done |]. split; [done |]. split; [done |].
  intros g cey u Hu.
  destruct (map_date_to_ontology_cases (Py.str_of_int year) g cey)
    as [Hnone | (y & kind & _ & _ & Hkind & Hsome)].
  - by rewrite Hnone in Hu.
  - rewrite Hsome in Hu. injection Hu as <-.
    destruct Hkind as [[_ ->] | [[Hl _] | [[Hl _] | (Hl & _)]]]; [done | lia..].
Qed.

Lemma academic_year_becomes_a_year_node_witness :
  ∃ year,
    Py.int_of_str (Py.take 4 (Py.strip (str (Str "2019-20")))) = Ret year
    ∧ "2019" = Py.str_of_int year
    ∧ -999 ≤ year ≤ 9999
    ∧ (String.length "2019" ≤ 4)%nat
    ∧ ∀ g cey u,
        (map_date_to_ontology "2019" g cey).1 = Some u
        → u = time_entity "Year" "2019".
Proof.
  apply (academic_year_becomes_a_year_node schools_env (Str "2019-20") "2019").
  reflexivity.
Defined.

(** ** The registry *)

Lemma registry_well_formed :
  map_Forall (λ source_name m, well_formed_mapping source_name m = true) MAPPINGS.
Proof.
  assert (forallb (λ p, well_formed_mapping p.1 p.2) (map_to_list MAPPINGS)
          = true) as H by (vm_compute; reflexivity).
  rewrite forallb_forall in H.
  apply map_Forall_to_list, Forall_forall. intros [source_name m] Hin.
  apply list_elem_of_In in Hin. exact (H _ Hin).
Qed.

Lemma well_formed_field_spec (field : string) (details : field_details) :
  well_formed_field field details = true →
  (object details = Some true → is_Some (related_class details))
  ∧ (field = "date" → valid_values details = None ∧ mapping details = None)
  ∧ (∀ d, mapping details = Some d →
          ∃ vs, valid_values details = Some vs
                ∧ ∀ s, s ∈ vs → is_Some (d !! s)).
Proof.
  unfold well_formed_field. rewrite !andb_true_iff. intros [[Ho Hd] Hm].
  split; [| split].
  - intros Hobj. rewrite bool_decide_eq_true_2 in Ho by done.
    by apply bool_decide_eq_true in Ho.
  - intros ->. cbn in Hd. apply andb_true_iff in Hd as [H1 H2].
    by apply bool_decide_eq_true in H1, H2.
  - intros d Hmap. rewrite Hmap in Hm.
    destruct (valid_values details) as [vs|]; [| done].
    exists vs. split; [done |]. intros s Hs.
    rewrite forallb_forall in Hm.
    apply (bool_decide_eq_true _), Hm, list_elem_of_In, Hs.
Qed.

Lemma errors_add_error_ne (e : error) (s : summary) :
  errors s ≠ (errors s ++ [e])%list.
Proof.
  intros H. apply (f_equal length) in H. rewrite List.length_app in H.
  cbn in H. lia.
Qed.

Lemma sanitize_uri_raises (value : string) (e : exn) :
  sanitize_uri value = Raise e → e = IndexError.
Proof.
  unfold sanitize_uri. destruct (re_sub_non_word value); [| done].
  by intros [= <-].
Qed.

(** X23: the registry is consistent with the row mapper.  In every entry
    of [MAPPINGS], a relationship field names the class of the related
    entity, the date field has neither a value list nor a value mapping,
    every value mapping comes with a value list whose entries are all keys
    of the mapping, and the URI template has no replacement field but
    [transaction_id] (for [price_paid]) or [unique_id] (for the other
    sources).  So for these fields the lookup of the related class never
    raises [KeyError], and a value is never reported as having no
    mapping: a wrong code is always reported as an invalid value. *)
Theorem registry_is_consistent (source_name : string) (m : source_mapping)
    (field : string) (details : field_details) :
  MAPPINGS !! source_name = Some m →
  (field, details) ∈ fields m →
  (object details = Some true → is_Some (related_class details))
  ∧ (field = "date" → valid_values details = None ∧ mapping details = None)
  ∧ (∀ d, mapping details = Some d →
          ∃ vs, valid_values details = Some vs
                ∧ ∀ s, s ∈ vs → is_Some (d !! s))
  ∧ (∀ key, Field key ∈ uri_pattern m → key = template_key source_name)
  ∧ ∀ env r entity cey g s,
      (field ≠ "date" →
       (process_field env r m entity cey field details g s).2 ≠ Throw KeyError)
      ∧ ∀ v, errors (process_field env r m entity cey field details g s).1.2
             ≠ (errors s ++ [no_mapping_message v field])%list.
Proof.
  intros Hm Hfield.
  pose proof (registry_well_formed source_name m Hm) as Hwf.
  unfold well_formed_mapping in Hwf.
  apply andb_true_iff in Hwf as [Hfields Hpattern].
  rewrite forallb_forall in Hfields, Hpattern.
  assert (well_formed_field field details = true) as Hdetails
    by (apply (Hfields (field, details)), list_elem_of_In, Hfield).
  destruct (well_formed_field_spec field details Hdetails) as (Hobj & Hdate & Hmap).
  split; [done |]. split; [done |]. split; [done |]. split.
  { intros key Hkey. apply list_elem_of_In, Hpattern in Hkey.
    by apply String.eqb_eq in Hkey. }
  intros env r entity cey g s. unfold process_field.
  destruct (get field r) as [v0|];
    [| split; [done | intros v; apply errors_add_error_ne]].
  destruct (isna v0); [split; [done | intros v; apply errors_add_error_ne] |].
  destruct (match valid_values details with
            | Some vs => negb (cell_in v0 vs)
            | None => false
            end) eqn:Hvalid.
  { split; [done |]. intros v. cbn. intros H.
    apply app_inv_head in H. unfold invalid_value_message, no_mapping_message in H.
    by injection H. }
  destruct (match mapping details with
            | Some d => Str <$> cell_lookup v0 d
            | None => Some v0
            end) as [value|] eqn:Hmapped.
  2: { exfalso. destruct (mapping details) as [d|] eqn:Hd; [| done].
       destruct (Hmap d eq_refl) as (vs & Hvs & Hkeys). rewrite Hvs in Hvalid.
       apply negb_false_iff in Hvalid. destruct v0 as [| s0 |]; try done.
       cbn in Hvalid, Hmapped. apply bool_decide_eq_true in Hvalid.
       destruct (Hkeys s0 Hvalid) as [x Hx]. by rewrite Hx in Hmapped. }
  destruct (String.eqb_spec field "date") as [-> | Hnd].
  { split; [done |]. intros v.
    pose proof (date_step_trace env m details entity value cey g s) as Htrace.
    destruct (date_step env m details entity value cey g s) as [[g' s'] sig].
    cbn [fst snd]. destruct sig as [|ok|e].
    - subst s'. apply errors_add_error_ne.
    - destruct Htrace as [_ ->]. cbn. apply errors_add_error_ne.
    - subst s'. apply errors_add_error_ne. }
  destruct (bool_decide (object details = Some true)) eqn:Ho.
  - apply bool_decide_eq_true in Ho. destruct (Hobj Ho) as [cls ->].
    destruct (sanitize_uri (str value)) as [segment|e] eqn:Hs; cbn.
    + split; [done | intros v; apply errors_add_error_ne].
    + apply sanitize_uri_raises in Hs as ->.
      split; [done | intros v; apply errors_add_error_ne].
  - split; [done | intros v; apply errors_add_error_ne].
Qed.

Lemma registry_is_consistent_witness :
  (object (coded_field (ns "prop" "oldNew") (XSD "string")
             [("y", "newly built"); ("n", "established residential building")])
   = Some true →
   is_Some (related_class
              (coded_field (ns "prop" "oldNew") (XSD "string")
                 [("y", "newly built");
                  ("n", "established residential building")])))
  ∧ ("old_new" = "date" →
     valid_values (coded_field (ns "prop" "oldNew") (XSD "string")
                     [("y", "newly built");
                      ("n", "established residential building")]) = None
     ∧ mapping (coded_field (ns "prop" "oldNew") (XSD "string")
                  [("y", "newly built");
                   ("n", "established residential building")]) = None)
  ∧ (∀ d, mapping (coded_field (ns "prop" "oldNew") (XSD "string")
                     [("y", "newly built");
                      ("n", "established residential building")]) = Some d →
          ∃ vs, valid_values (coded_field (ns "prop" "oldNew") (XSD "string")
                                [("y", "newly built");
                                 ("n", "established residential building")])
                = Some vs
                ∧ ∀ s, s ∈ vs → is_Some (d !! s))
  ∧ (∀ key, Field key ∈ uri_pattern price_paid → key = template_key "price_paid")
  ∧ ∀ env r entity cey g s,
      ("old_new" ≠ "date" →
       (process_field env r price_paid entity cey "old_new"
          (coded_field (ns "prop" "oldNew") (XSD "string")
             [("y", "newly built"); ("n", "established residential building")])
          g s).2 ≠ Throw KeyError)
      ∧ ∀ v, errors (process_field env r price_paid entity cey "old_new"
                       (coded_field (ns "prop" "oldNew") (XSD "string")
                          [("y", "newly built");
                           ("n", "established residential building")])
                       g s).1.2
             ≠ (errors s ++ [no_mapping_message v "old_new"])%list.
Proof.
  apply (registry_is_consistent "price_paid" price_paid "old_new"
           (coded_field (ns "prop" "oldNew") (XSD "string")
              [("y", "newly built"); ("n", "established residential building")])).
  - vm_compute. reflexivity.
  - cbn. do 5 apply list_elem_of_further. apply list_elem_of_here.
Defined.

(** ** Entity URIs *)

Lemma format_text_field (t k key value : string) :
  format [Text t; Field k] key value
  = if String.eqb k key then Ret (t ++ value) else Raise KeyError.
Proof.
  cbn [format]. destruct (String.eqb k key); [| done].
  cbn [mbind outcome_bind mret outcome_ret]. by rewrite app_empty_r.
Qed.

Lemma registry_entries (source_name : string) (m : source_mapping) :
  MAPPINGS !! source_name = Some m →
  ∃ t, uri_pattern m = [Text t; Field (template_key source_name)].
Proof.
  unfold MAPPINGS. intros H%elem_of_list_to_map_2.
  repeat (apply elem_of_cons in H as [[= -> ->] | H]; [by eexists |]).
  by apply elem_of_nil in H.
Qed.

(** X24: the entity URI identifies the row.  For a source of the
    registry, two rows get the same entity URI only if both have a
    [transaction_id] and the two identifiers are equal once their braces
    are removed, or neither has one and the two generated identifiers are
    equal once their dashes are removed; a row with a [transaction_id]
    and a row without one never share their entity. *)
Theorem entity_uri_identifies_the_row (source_name : string)
    (m : source_mapping) (r1 r2 : row) (fresh1 fresh2 : string) (u : term) :
  MAPPINGS !! source_name = Some m →
  entity_uri_of r1 m fresh1 = Ret u →
  entity_uri_of r2 m fresh2 = Ret u →
  match get "transaction_id" r1, get "transaction_id" r2 with
  | Some id1, Some id2 =>
      Py.remove_char "}" (Py.remove_char "{" (str id1))
      = Py.remove_char "}" (Py.remove_char "{" (str id2))
  | None, None => Py.remove_char "-" fresh1 = Py.remove_char "-" fresh2
  | _, _ => False
  end.
Proof.
  intros Hm. destruct (registry_entries source_name m Hm) as [t Hpattern].
  unfold entity_uri_of, generate_unique_identifier. rewrite Hpattern.
  rewrite !format_text_field. unfold template_key.
  destruct (String.eqb source_name "price_paid");
    destruct (get "transaction_id" r1) as [id1|],
             (get "transaction_id" r2) as [id2|]; cbn; try done.
  - intros [= <-] [= H]. rewrite ?app_empty_r in H.
    symmetry. by apply String.app_inj in H.
  - intros [= <-] [= H]. rewrite ?app_empty_r in H.
    symmetry. by do 3 apply String.app_inj in H.
Qed.

Lemma entity_uri_identifies_the_row_witness :
  Py.remove_char "-" "0a-1b" = Py.remove_char "-" "0a1-b".
Proof.
  apply (entity_uri_identifies_the_row "school_count" school_count
           [("date", Str "2019-20")] [("date", Str "2020-21")]
           "0a-1b" "0a1-b"
           (URIRef (NAMESPACES "house" ++ "HousingMarketIndicator/"
                    ++ "HousingMarketIndicator_0a1b"))).
  - vm_compute. reflexivity.
  - reflexivity.
  - reflexivity.
Defined.

(** ** Where a merge can fail *)

(** An unreadable chunk file that the merge of a source meets was in the
    intermediate directory when the source was reached:
    [load_and_transform_data] writes Turtle only. *)
Lemma unreadable_chunk_is_a_leftover (env : environment) (source_name : string)
    (cey : Z) (w0 w1 : world) (r : outcome summary) (name : string)
    (read : graph) :
  load_and_transform_data env source_name cey w0 = (w1, r) →
  intermediate w1 !! name = Some (Unreadable read) →
  intermediate w0 !! name = Some (Unreadable read).
Proof.
  unfold load_and_transform_data.
  destruct (processed w0 !! source_name) as [chunks|]; [| by intros [= <- <-]].
  destruct (mappings env !! source_name) as [m|]; [| by intros [= <- <-]].
  destruct (transform_chunks env source_name m cey _ 0 chunks new_summary
              (intermediate w0)) as [dir r'] eqn:Hrun.
  intros [= <- <-]. cbn.
  destruct (transform_chunks_files env source_name m cey _ chunks _ _ _ _ _
              Hrun name) as [_ [-> | [g ->]]]; done.
Qed.

(** After a source whose merge returned, no chunk file is left, whatever
    the sources processed after it. *)
Lemma process_sources_leaves_no_chunk_file (env : environment) (cey : Z)
    (source_names : list string) :
  ∀ w w',
    source_names ≠ [] →
    process_sources env cey source_names w = (w', Ret ()) →
    clean_directory w'.
Proof.
  induction source_names as [|source_name rest IH]; intros w w' Hne Hrun;
    [done |].
  cbn [process_sources] in Hrun.
  destruct (load_and_transform_data env source_name cey w) as [w1 [s|e]];
    [| done].
  destruct (combine_ttl_files source_name w1) as [w2 [[]|e]] eqn:Hmerge;
    [| done].
  destruct (combine_ttl_files_ret _ _ _ Hmerge) as (_ & _ & _ & Hi & _).
  destruct rest as [|next rest].
  - cbn in Hrun. injection Hrun as <-. intros name Hc. cbn.
    by rewrite Hi, Hc.
  - by apply (IH (print_summary source_name s w2)).
Qed.

(** So within one run the merge can only fail for the first source: after
    sources that were processed to the end, the chunk files that the merge
    of the next source reads are the ones that the source wrote itself,
    and those are readable. *)
Lemma later_merges_read_their_own_files (env : environment) (cey : Z)
    (earlier : list string) (source_name : string) (w w0 w1 : world)
    (r : outcome summary) (name : string) (read : graph) :
  earlier ≠ [] →
  process_sources env cey earlier w = (w0, Ret ()) →
  load_and_transform_data env source_name cey w0 = (w1, r) →
  is_chunk_file name = true →
  intermediate w1 !! name ≠ Some (Unreadable read).
Proof.
  intros Hne Hrun Hload Hc Hfile.
  apply (unreadable_chunk_is_a_leftover _ _ _ _ _ _ _ _ Hload) in Hfile.
  by rewrite (process_sources_leaves_no_chunk_file _ _ _ _ _ Hne Hrun name Hc)
    in Hfile.
Qed.

(** ** Two runs *)












(** The identifiers drawn show in the output: the rows of the two quarterly
    sources have no [transaction_id], and a second run that draws other
    identifiers writes other entity URIs. *)
Lemma other_identifiers_other_output :
  transformed
    (main rates_env ["national_rates"; "regional_rates"] quarterly_world).1
  ≠ transformed
      (main (with_uuid4 (λ _ i, "second-run-" ++ pretty i) rates_env)
         ["national_rates"; "regional_rates"] quarterly_world).1.
Proof.
  intros H.
  apply (f_equal
           (λ t, match t !! "regional_rates",
                       entity_uri_of [] quarterly (uuid4 rates_env "regional_rates" 0%nat)
                 with
                 | Some (Turtle g), Ret u =>
                     bool_decide ((u, RDF_type, URIRef (class quarterly)) ∈ g)
                 | _, _ => false
                 end)) in H.
  vm_compute in H. discriminate H.
Qed.


